(** * Label colormaps of napari: low-discrepancy colour sequences

    A shallow embedding of [napari/util/colormaps/colormaps.py]: the
    quasi-random point generator [_low_discrepancy], the label hash
    [_low_discrepancy_image], the RGB validator [_validate_rgb], the
    rejection sampler [_color_random] and the colormap builder
    [label_colormap].

    Numbers are IEEE binary64 values (Rocq's primitive floats), which is what
    Python floats and numpy's [float64] arrays hold; arrays are lists (a
    vector) and lists of rows (a matrix of shape (n, k)). *)

From Stdlib Require Import String.
From Stdlib Require Import List ZArith Lia Bool.
From Stdlib Require Import Floats.
From Stdlib Require DecimalString.
Import ListNotations.

Set Warnings "-inexact-float".

(** ** Binary64 arithmetic as Python and numpy use it *)

Module Float64.

(** Conversion of an integer ([int64] element or Python [int]) to
    [float64]: the nearest binary64 value, ties to even. *)
Definition of_int (i : Z) : float :=
  SF2Prim (binary_normalize prec emax i 0 false).

(** C's [fmod(x, 1)]: the exact value [x - trunc x], with the sign of [x];
    NaN for an infinite or NaN argument.  A finite [x] is [m * 2^e], so the
    fractional part is [(m mod 2^(-e)) * 2^e]. *)
Definition fmod1 (x : float) : float :=
  match Prim2SF x with
  | S754_nan | S754_infinity _ => nan
  | S754_zero _ => x
  | S754_finite s m e =>
      let frac := if (0 <=? e)%Z then 0%Z else (Zpos m mod 2 ^ (- e))%Z in
      let r := SF2Prim (binary_normalize prec emax frac e false) in
      if s then (- r)%float else r
  end.

(** [x % 1] on floats (Python's [float.__mod__] and numpy's [remainder]):
    [fmod], then the result takes the sign of the divisor. *)
Definition mod1 (x : float) : float :=
  let m := fmod1 x in
  if (m =? 0)%float then 0%float
  else if (m <? 0)%float then (m + 1)%float
  else m.

(** [lo < x < hi], both strict: [(x > lo) & (x < hi)]. *)
Definition strictly_between (lo hi x : float) : bool :=
  (lo <? x)%float && (x <? hi)%float.

(** [0 <= x <= 1]. *)
Definition in_unit (x : float) : bool :=
  (0 <=? x)%float && (x <=? 1)%float.

End Float64.

(** ** The numpy operations the module calls *)

Module Numpy.

Definition vector := list float.
Definition matrix := list (list float).

Inductive exn : Set :=
| ValueError
| IndexError.

Inductive result (A : Type) : Type :=
| Ok (a : A)
| Raise (e : exn).
Arguments Ok {A} a.
Arguments Raise {A} e.

Definition bind {A B} (r : result A) (k : A -> result B) : result B :=
  match r with
  | Ok a => k a
  | Raise e => Raise e
  end.

Definition fmap {A B} (f : A -> B) (r : result A) : result B :=
  bind r (fun a => Ok (f a)).

(** A float argument that is a scalar or a one-dimensional array. *)
Inductive scalar_or_vector : Type :=
| Scalar (s : float)
| Vector (v : vector).

Definition zip_with {A B C} (f : A -> B -> C) (xs : list A) (ys : list B)
  : list C :=
  map (fun p => f (fst p) (snd p)) (combine xs ys).

(** Two axis lengths broadcast together when equal or when one is 1. *)
Definition compatible (a b : nat) : bool :=
  (a =? b)%nat || (a =? 1)%nat || (b =? 1)%nat.

(** Elementwise [f] on two rows whose lengths are compatible. *)
Definition zip_broadcast (f : float -> float -> float) (xs ys : vector)
  : vector :=
  if (length xs =? length ys)%nat then zip_with f xs ys
  else match xs, ys with
       | [x], _ => map (f x) ys
       | _, [y] => map (fun x => f x y) xs
       | _, _ => zip_with f xs ys
       end.

(** [f row m] for [row] of shape (1, k) or (k,) and [m] of shape
    (n, cols). *)
Definition row_op (f : float -> float -> float) (row : vector)
           (cols : nat) (m : matrix) : result matrix :=
  if compatible (length row) cols
  then Ok (map (fun r => zip_broadcast f row r) m)
  else Raise ValueError.

(** [f m row] for [m] of shape (n, cols) and [row] of shape (k,). *)
Definition op_row (f : float -> float -> float) (cols : nat) (m : matrix)
           (row : vector) : result matrix :=
  if compatible cols (length row)
  then Ok (map (fun r => zip_broadcast f r row) m)
  else Raise ValueError.

(** [np.broadcast_to(seed, (1, dim))], as its single row. *)
Definition broadcast_to (seed : scalar_or_vector) (dim : Z)
  : result vector :=
  if (dim <? 0)%Z then Raise ValueError
  else match seed with
       | Scalar s => Ok (repeat s (Z.to_nat dim))
       | Vector v =>
           if (Z.of_nat (length v) =? dim)%Z then Ok v
           else match v with
                | [s] => Ok (repeat s (Z.to_nat dim))
                | _ => Raise ValueError
                end
       end.

(** [np.arange(n)]: the [int64] values 0 .. n-1. *)
Definition arange (n : nat) : list Z := map Z.of_nat (seq 0 n).

(** [a[:k]] on a one-dimensional array. *)
Definition slice_to {A} (k : Z) (a : list A) : list A :=
  if (k <? 0)%Z then firstn (length a - Z.to_nat (- k)) a
  else firstn (Z.to_nat k) a.

(** [np.reshape(ns, (n, 1)) * g]: an [int64] column times a float row. *)
Definition column_times_row (ns : list Z) (g : vector) : matrix :=
  map (fun i => map (fun gk => (Float64.of_int i * gk)%float) g) ns.

(** [np.clip(x, 0, 1)] on one element: below 0 becomes 0, above 1
    becomes 1. *)
Definition clip01 (x : float) : float :=
  if (x <? 0)%float then 0%float
  else if (1 <? x)%float then 1%float
  else x.

Fixpoint set_last {A} (l : list A) (v : A) : list A :=
  match l with
  | [] => []
  | [_] => [v]
  | x :: l' => x :: set_last l' v
  end.

(** [np.linspace(start, stop, num)], endpoint included. *)
Definition linspace (start stop : float) (num : Z) : result vector :=
  if (num <? 0)%Z then Raise ValueError
  else
    let div := Float64.of_int (num - 1) in
    let y := map Float64.of_int (arange (Z.to_nat num)) in
    let delta := (stop - start)%float in
    if (1 <? num)%Z then
      let step := (delta / div)%float in
      let y := if (step =? 0)%float
               then map (fun v => (v / div * delta)%float) y
               else map (fun v => (v * step)%float) y in
      let y := map (fun v => (v + start)%float) y in
      Ok (set_last y stop)
    else
      Ok (map (fun v => (v * delta + start)%float) y).

(** [np.full((n, 1), v)]. *)
Definition full_column (n : nat) (v : float) : matrix := repeat [v] n.

(** [np.concatenate((a, b), axis=1)]: the row counts must agree. *)
Definition concatenate_axis1 (a b : matrix) : result matrix :=
  if (length a =? length b)%nat
  then Ok (zip_with (fun r s => r ++ s) a b)
  else Raise ValueError.

(** [a[0, :] = v]. *)
Definition set_row0 (a : matrix) (v : float) : result matrix :=
  match a with
  | [] => Raise IndexError
  | r :: rest => Ok (map (fun _ => v) r :: rest)
  end.

End Numpy.

(** ** colormaps.py *)

Module Colormaps.
Import Numpy.

Notation "x <- r ;; k" := (bind r (fun x => k))
  (at level 61, r at next level, right associativity).

(** *** Module-level arrays

    [LUVMIN] .. [LABRNG] are global names of the module, bound to numpy
    arrays when the module is imported and read by [_color_random] at each
    call. *)
Record globals : Type := {
  LUVMIN : vector;
  LUVMAX : vector;
  LUVRNG : vector;
  LABMIN : vector;
  LABMAX : vector;
  LABRNG : vector
}.

Definition luvmin : vector := [0; -83.07790815; -134.09790293]%float.
Definition luvmax : vector := [100; 175.01447356; 107.39905336]%float.
Definition labmin : vector := [0; -86.18302974; -107.85730021]%float.
Definition labmax : vector := [100; 98.23305386; 94.47812228]%float.

(** The globals as the import leaves them. *)
Definition module_globals : globals := {|
  LUVMIN := luvmin;
  LUVMAX := luvmax;
  LUVRNG := zip_broadcast PrimFloat.sub luvmax luvmin;
  LABMIN := labmin;
  LABMAX := labmax;
  LABRNG := zip_broadcast PrimFloat.sub labmax labmin
|}.

(** *** [_validate_rgb] *)

(** [colors[valid]]: the rows of [colors] whose mask entry is [True]. *)
Definition select_rows (colors : matrix) (valid : list bool) : matrix :=
  map fst (filter snd (combine colors valid)).

Definition validate_rgb (colors : matrix) (tolerance : float) : matrix :=
  let lo := (0 - tolerance)%float in
  let hi := (1 + tolerance)%float in
  let valid := map (forallb (Float64.strictly_between lo hi)) colors in
  let filtered_colors := map (map clip01) (select_rows colors valid) in
  filtered_colors.

(** *** [_low_discrepancy_image] *)

(** A label or an array of labels (a label image, read elementwise). *)
Inductive labels : Type :=
| Label (l : Z)
| LabelArray (a : list Z).

Definition low_discrepancy_image (image : labels) (seed : float)
  : scalar_or_vector :=
  let phi := 1.6180339887498948482%float in
  match image with
  | Label l =>
      Scalar (Float64.mod1 (seed + Float64.of_int l / phi)%float)
  | LabelArray a =>
      let quotient := map (fun l => (Float64.of_int l / phi)%float) a in
      let shifted := map (fun q => (seed + q)%float) quotient in
      Vector (map Float64.mod1 shifted)
  end.

(** *** [_low_discrepancy] *)

Definition phi1 : float := 1.6180339887498948482%float.
Definition phi2 : float := 1.32471795724474602596%float.
Definition phi3 : float := 1.22074408460575947536%float.

Definition low_discrepancy (dim : Z) (n : nat) (seed : scalar_or_vector)
  : result matrix :=
  seed <- broadcast_to seed dim ;;
  let phi := [phi1; phi2; phi3] in
  let g := map (fun p => (1 / p)%float) phi in
  let n := arange n in
  let gd := slice_to dim g in
  sum <- row_op PrimFloat.add seed (length gd) (column_times_row n gd) ;;
  let pts := map (map Float64.mod1) sum in
  Ok pts.

(** The arguments handed to [vispy.color.Colormap]. *)
Record Colormap : Type := {
  colors : matrix;
  controls : vector;
  interpolation : string
}.

Section Colorconv.

(** The converters of the vendored [colorconv] module, from an array of
    shape (m, 3) to an array of colours. *)
Variables lab2rgb luv2rgb : matrix -> matrix.

(** *** [_color_random] *)

(** [random * rng + min] for [random] of shape (m, 3). *)
Definition rescale (random : matrix) (rng mn : vector) : result matrix :=
  scaled <- op_row PrimFloat.mul 3 random rng ;;
  op_row PrimFloat.add 3 scaled mn.

(** The [if colorspace == ...] chain: [raw_rgb] from [random]. *)
Definition to_rgb (G : globals) (colorspace : string) (random : matrix)
  : result matrix :=
  if String.eqb colorspace "luv" then
    fmap luv2rgb (rescale random (LUVRNG G) (LUVMIN G))
  else if String.eqb colorspace "rgb" then
    Ok random
  else
    fmap lab2rgb (rescale random (LABRNG G) (LABMIN G)).

(** One pass through the body of the [while] loop, up to the
    assignment of [rgb]. *)
Definition draw (G : globals) (n : nat) (colorspace : string)
           (tolerance : float) (seed : scalar_or_vector) (factor : nat)
  : result matrix :=
  random <- low_discrepancy 3 (n * factor) seed ;;
  raw_rgb <- to_rgb G colorspace random ;;
  Ok (validate_rgb raw_rgb tolerance).

Definition expand_factor : nat := 2.

(** The [while len(rgb) < n] loop; [fuel] bounds the number of
    iterations, [None] is a loop still running when it is spent. *)
Fixpoint color_random_loop (fuel : nat) (G : globals) (n : nat)
         (colorspace : string) (tolerance : float)
         (seed : scalar_or_vector) (rgb : matrix) (factor : nat)
  : option (result matrix) :=
  if (length rgb <? n)%nat then
    match fuel with
    | O => None
    | S fuel' =>
        match draw G n colorspace tolerance seed factor with
        | Raise e => Some (Raise e)
        | Ok rgb' =>
            color_random_loop fuel' G n colorspace tolerance seed
                              rgb' (factor * expand_factor)
        end
    end
  else Some (Ok (firstn n rgb)).

Definition color_random (fuel : nat) (G : globals) (n : nat)
           (colorspace : string) (tolerance : float)
           (seed : scalar_or_vector) : option (result matrix) :=
  color_random_loop fuel G n colorspace tolerance seed [] 6.

(** *** [label_colormap] *)

Definition control_points (num_colors : nat) : result vector :=
  midpoints <- linspace 0 1 (Z.of_nat num_colors - 1) ;;
  Ok ([0%float] ++ midpoints ++ [1%float]).

Definition label_colormap (fuel : nat) (G : globals) (num_colors : nat)
           (seed : scalar_or_vector) : option (result Colormap) :=
  match control_points num_colors with
  | Raise e => Some (Raise e)
  | Ok control_points =>
      match color_random fuel G num_colors "lab" 0 seed with
      | None => None
      | Some (Raise e) => Some (Raise e)
      | Some (Ok rgb) =>
          Some (colors <- concatenate_axis1
                            rgb (full_column num_colors 1) ;;
                colors <- set_row0 colors 0 ;;
                Ok {| colors := colors;
                      controls := control_points;
                      interpolation := "zero" |})
      end
  end.

End Colorconv.

End Colormaps.

(** ** Calls made one after the other

    A caller holds the module for a whole session and calls its functions in
    turn; each call starts from the globals the previous one left. *)

Module Session.
Import Numpy Colormaps.

Inductive call : Type :=
| generate_points (dim : Z) (n : nat) (seed : scalar_or_vector)
| validate (rgb : matrix) (tolerance : float)
| random_colors (n : nat) (colorspace : string) (tolerance : float)
                (seed : scalar_or_vector)
| build_colormap (num_colors : nat) (seed : scalar_or_vector)
| label_to_unit (image : labels) (seed : float).

Inductive value : Type :=
| Array (m : matrix)
| Unit (v : scalar_or_vector)
| Cmap (c : Colormap).

(** What a call does: it does not return within the fuel ([None]), it
    raises, or it returns a value. *)
Definition outcome : Type := option (result value).

Section Calls.

Variables lab2rgb luv2rgb : matrix -> matrix.
Variable fuel : nat.

(** One call, from the globals [G]: its outcome and the globals it
    leaves.  No function of the module assigns to a global or writes into
    an array it was given. *)
Definition exec (c : call) (G : globals) : outcome * globals :=
  match c with
  | generate_points dim n seed =>
      (Some (fmap Array (low_discrepancy dim n seed)), G)
  | validate rgb tolerance =>
      (Some (Ok (Array (validate_rgb rgb tolerance))), G)
  | random_colors n colorspace tolerance seed =>
      (option_map (fmap Array)
         (color_random lab2rgb luv2rgb fuel G n colorspace tolerance
                       seed), G)
  | build_colormap num_colors seed =>
      (option_map (fmap Cmap)
         (label_colormap lab2rgb luv2rgb fuel G num_colors seed), G)
  | label_to_unit image seed =>
      (Some (Ok (Unit (low_discrepancy_image image seed))), G)
  end.

(** A sequence of calls: the outcomes in order, and the final globals. *)
Fixpoint run (cs : list call) (G : globals) : list outcome * globals :=
  match cs with
  | [] => ([], G)
  | c :: cs' =>
      let (o, G') := exec c G in
      let (os, G'') := run cs' G' in
      (o :: os, G'')
  end.

End Calls.

End Session.

(** ** Stand-ins for the colour converters in closed examples *)

Module Standin.
Import Numpy.

(** A converter that sends every row to mid-grey. *)
Definition to_grey (m : matrix) : matrix :=
  map (fun _ => [0.5; 0.5; 0.5]%float) m.

(** A converter that returns its argument. *)
Definition unchanged (m : matrix) : matrix := m.

(** The colormap of two colours that [to_grey] leads to. *)
Definition two_colors : Colormaps.Colormap :=
  {| Colormaps.colors := [[0; 0; 0; 0]; [0.5; 0.5; 0.5; 1]]%float;
     Colormaps.controls := [0; 0; 1]%float;
     Colormaps.interpolation := "zero" |}.

End Standin.

(** ** colormaps.py: [_all_rgb] *)

Module AllRgb.
Import Numpy.

(** A three-dimensional array, indexed [a[i][j][k]]. *)
Definition cube (A : Type) : Type := list (list (list A)).

(** [np.meshgrid(x, y, z, indexing='ij')]: three arrays of shape
    (len x, len y, len z) that repeat [x] along the first axis, [y] along
    the second and [z] along the third. *)
Definition meshgrid_ij {A} (x y z : list A) : cube A * cube A * cube A :=
  (map (fun a => map (fun _ => map (fun _ => a) z) y) x,
   map (fun _ => map (fun b => map (fun _ => b) z) y) x,
   map (fun _ => map (fun _ => map (fun c => c) z) y) x).

Definition zip_with3 {A B C D} (f : A -> B -> C -> D) (xs : list A)
           (ys : list B) (zs : list C) : list D :=
  zip_with (fun ab c => f (fst ab) (snd ab) c) (combine xs ys) zs.

(** [np.stack((r, g, b), axis=-1)]: the three arrays joined along a new
    last axis. *)
Definition stack_last {A} (r g b : cube A) : cube (list A) :=
  zip_with3 (zip_with3 (zip_with3 (fun x y z => [x; y; z]))) r g b.

(** [a.reshape((-1, 3))] on an array of shape (l, m, n, 3): its rows in
    row-major order. *)
Definition reshape_rows {A} (a : cube (list A)) : list (list A) :=
  concat (map (@concat (list A)) a).

(** The rows built from three axes. *)
Definition all_tuples {A} (x y z : list A) : list (list A) :=
  let '(r, g, b) := meshgrid_ij x y z in
  reshape_rows (stack_last r g b).

(** [_all_rgb]; the [uint8] values are integers 0 .. 255. *)
Definition all_rgb : list (list Z) :=
  let base := arange 256 in
  all_tuples base base base.

End AllRgb.

(** ** layers/_labels_layer/model.py: [Labels._slice_image] *)

Module LabelsLayer.
Import Numpy.

(** An entry of [indices]: an integer or a slice object. *)
Inductive index : Type :=
| Int (i : Z)
| Slice (start stop step : option Z).

(** [l[k] = v] on a list, for [k] within the list. *)
Fixpoint list_set {A} (l : list A) (k : nat) (v : A) : list A :=
  match l, k with
  | [], _ => []
  | _ :: l', O => v :: l'
  | x :: l', S k' => x :: list_set l' k' v
  end.

(** The body of the [for dim in range(len(indices))] loop: an integer
    index above the last position of its axis is set to that position; the
    comparison of a slice with an integer raises [TypeError], which the
    [try] passes over. Reading [shape[dim]] outside the tuple raises
    [IndexError]. *)
Definition clamp_step (shape : list Z) (indices : list index) (dim : nat)
  : result (list index) :=
  match nth_error shape dim with
  | None => Raise IndexError
  | Some size =>
      let max_dim_index := (size - 1)%Z in
      match nth_error indices dim with
      | Some (Int i) =>
          if (max_dim_index <? i)%Z
          then Ok (list_set indices dim (Int max_dim_index))
          else Ok indices
      | _ => Ok indices
      end
  end.

Fixpoint clamp_loop (shape : list Z) (indices : list index)
         (dims : list nat) : result (list index) :=
  match dims with
  | [] => Ok indices
  | dim :: dims' =>
      bind (clamp_step shape indices dim)
           (fun indices' => clamp_loop shape indices' dims')
  end.

Section SliceImage.

(** The image type and numpy's [image[tuple(indices)]]. *)
Variable image_t : Type.
Variable value_t : Type.
Variable getitem : image_t -> list index -> result value_t.

(** [self._image], and [self.ndim] and [self.image.shape], which the base
    class and the image provide. *)
Variable self_image : image_t.
Variable ndim : nat.
Variable shape : list Z.

(** The indices the function hands to numpy. *)
Definition slice_indices (indices : list index) : result (list index) :=
  let indices := firstn ndim indices in
  clamp_loop shape indices (seq 0 (length indices)).

Definition slice_image (indices : list index) (image : option image_t)
  : result value_t :=
  let image := match image with
               | None => self_image
               | Some image => image
               end in
  bind (slice_indices indices) (getitem image).

End SliceImage.

(** An index brought back to the last position of an axis of [size]
    elements when it lies beyond it. *)
Definition clamped (idx : index) (size : Z) : index :=
  match idx with
  | Int i => Int (Z.min i (size - 1))
  | Slice start stop step => Slice start stop step
  end.

End LabelsLayer.

(** ** Python strings *)

Module PyString.

Local Open Scope string_scope.

(** [new] before every character of [s] and after the last one. *)
Fixpoint interleave (new s : string) : string :=
  match s with
  | EmptyString => new
  | String c s' => new ++ String c (interleave new s')
  end.

(** The scan of [str.replace] for a non-empty [old]: where [old] starts,
    [new] is written and the rest of that occurrence is skipped; any other
    character is copied. *)
Fixpoint replace_from (old new : string) (skip : nat) (s : string)
  : string :=
  match s with
  | EmptyString => EmptyString
  | String c s' =>
      match skip with
      | S k => replace_from old new k s'
      | O => if String.prefix old s
             then new ++ replace_from old new (String.length old - 1) s'
             else String c (replace_from old new 0 s')
      end
  end.

(** [s.replace(old, new)]: every occurrence of [old], found from the left
    and without overlap, becomes [new]. *)
Definition replace (s old new : string) : string :=
  match old with
  | EmptyString => interleave new s
  | String _ _ => replace_from old new 0 s
  end.

(** [s.endswith(suffix)]. *)
Fixpoint endswith (s suffix : string) : bool :=
  String.eqb s suffix
  || match s with
     | EmptyString => false
     | String _ s' => endswith s' suffix
     end.

(** [sub in s]. *)
Fixpoint contains (s sub : string) : bool :=
  String.prefix sub s
  || match s with
     | EmptyString => false
     | String _ s' => contains s' sub
     end.

(** [str(i)] for an integer. *)
Definition str (i : Z) : string :=
  DecimalString.NilZero.string_of_int (Z.to_int i).

(** [c in s] for a character. *)
Fixpoint has_char (c : Ascii.ascii) (s : string) : bool :=
  match s with
  | EmptyString => false
  | String a s' => Ascii.eqb c a || has_char c s'
  end.

End PyString.

(** ** resources/build_icons.py *)

Module BuildIcons.
Import PyString.

Local Open Scope string_scope.

(** *** [themify_icons]: the icons it themes *)

(** [icon_names], from the directory listing. *)
Definition icon_names (listing : list string) : list string :=
  map (fun i => replace i ".svg" "")
      (filter (fun i => endswith i ".svg") listing).

(** [svg_name], the file read for an icon and written for each theme. *)
Definition svg_name (icon_name : string) : string := icon_name ++ ".svg".

(** *** [build_pyqt_resources]: the import rewritten *)

Definition qtpy_imports (data : string) : string :=
  replace (replace data "PySide2" "qtpy") "PyQt5" "qtpy".

(** *** [_find_rcc_or_raise] and the loop that runs what it yields *)

Inductive exception : Type :=
| SubprocessError
| FileNotFoundError
| OtherException (name : string).

Section Rcc.

(** [shutil.which(bin_name, path=path)]: the executable found, if any. *)
Variable which : string -> string -> option string.

(** [check_call(args)]: [None] when the command returned 0, the exception
    raised otherwise. *)
Variable check_call : list string -> option exception.

(** [sys.executable]'s directory, [os.environ.get("PATH", '')],
    [os.name == 'nt'], [os.path.join(python_dir, 'Scripts')] and
    [os.pathsep]. *)
Variables python_dir env_path scripts_dir pathsep : string.
Variable nt : bool.

Definition search_path : string :=
  let paths := [python_dir; env_path] in
  let paths := if nt then scripts_dir :: paths else paths in
  String.concat pathsep paths.

(** The truth value of [rcc_binary]. *)
Definition found (rcc_binary : option string) : option string :=
  match rcc_binary with
  | Some EmptyString => None
  | other => other
  end.

(** What the generator yields, in order; asked for one more it raises
    [FileNotFoundError]. *)
Definition find_rcc_or_raise : list string :=
  flat_map (fun bin_name =>
              match found (which bin_name search_path) with
              | Some rcc_binary => [rcc_binary]
              | None => []
              end)
           ["pyrcc5"; "pyside2-rcc"].

(** How the [for name in _find_rcc_or_raise()] loop ends: with the [break]
    after a call that succeeded, or with an exception. *)
Inductive conversion : Type :=
| Converted (name : string)
| Raised (e : exception).

Fixpoint run_each (out_path qrc_path : string) (names : list string)
  : conversion :=
  match names with
  | [] => Raised FileNotFoundError
  | name :: names' =>
      match check_call [name; "-o"; out_path; qrc_path] with
      | None => Converted name
      | Some SubprocessError => run_each out_path qrc_path names'
      | Some e => Raised e
      end
  end.

Definition convert (out_path qrc_path : string) : conversion :=
  run_each out_path qrc_path find_rcc_or_raise.

End Rcc.

End BuildIcons.

(** ** _qt/experimental/render/qt_octree_info.py *)

Module OctreeInfo.
Import PyString.

Local Open Scope string_scope.

Definition AUTO_INDEX : Z := 0.

Definition index_to_level (index : Z) : Z := index - 1.

Definition level_to_index (level : Z) : Z := level + 1.

(** [np.arange(0, num_levels)]. *)
Definition levels (num_levels : Z) : list Z :=
  Numpy.arange (Z.to_nat num_levels).

(** The entries of the combo box of [QtLevelCombo]. *)
Definition combo_items (num_levels : Z) : list string :=
  ["AUTO"] ++ map str (levels num_levels).

(** The attributes of the layer the widget reads and assigns. *)
Record layer : Type := {
  auto_level : bool;
  octree_level : Z
}.

(** [QtOctreeInfo._set_level]: the layer after the assignments. *)
Definition set_level (value : Z) (l : layer) : layer :=
  if (value =? AUTO_INDEX)%Z
  then {| auto_level := true; octree_level := octree_level l |}
  else {| auto_level := false; octree_level := index_to_level value |}.

(** [QtOctreeInfoLayout.set_layout]: the index handed to
    [QtLevelCombo.set_index]. *)
Definition layout_index (l : layer) : Z :=
  if auto_level l then AUTO_INDEX else level_to_index (octree_level l).

End OctreeInfo.

(** ** Notions the properties are stated with *)

Module Spec.
Import Numpy Colormaps.

(** Every channel of [color] lies strictly within
    (-tolerance, 1 + tolerance). *)
Definition Valid (tolerance : float) (color : vector) : Prop :=
  Forall (fun c => (0 - tolerance <? c)%float = true
                   /\ (c <? 1 + tolerance)%float = true) color.

(** Every channel of every row lies in [0, 1]. *)
Definition InUnitCube (m : matrix) : Prop :=
  Forall (Forall (fun c => Float64.in_unit c = true)) m.

(** Every row has three channels. *)
Definition Triples (m : matrix) : Prop :=
  Forall (fun row => length row = 3) m.

(** [Kept P l k]: [k] holds, in the order of [l], exactly the elements of
    [l] that satisfy [P]. *)
Inductive Kept {A} (P : A -> Prop) : list A -> list A -> Prop :=
| Kept_nil : Kept P [] []
| Kept_keep x l k : P x -> Kept P l k -> Kept P (x :: l) (x :: k)
| Kept_drop x l k : ~ P x -> Kept P l k -> Kept P (x :: l) k.

(** The constant of coordinate [d] (counted from 0). *)
Definition phi (d : nat) : float :=
  match d with
  | 0 => 1.6180339887498948482%float
  | 1 => 1.3247179572447460%float
  | _ => 1.2207440846057595%float
  end.

(** Coordinate [d] of a seed: a scalar seed serves every coordinate. *)
Definition seed_at (seed : scalar_or_vector) (d : nat) : float :=
  match seed with
  | Scalar s => s
  | Vector v => nth d v 0%float
  end.

(** A seed that fits dimension [dim]: a scalar, or a vector of [dim]
    floats. *)
Definition seed_fits (seed : scalar_or_vector) (dim : nat) : Prop :=
  match seed with
  | Scalar _ => True
  | Vector v => length v = dim
  end.

(** The increments [g = 1 / phi] of [_low_discrepancy]. *)
Definition g : vector := map (fun p => (1 / p)%float) [phi1; phi2; phi3].

(** The rows [_low_discrepancy] computes from the broadcast seed [row] and
    the increments [gd], once their shapes are known to agree. *)
Definition rows (row gd : vector) (n : nat) : matrix :=
  map (fun i : Z =>
         map Float64.mod1
             (zip_broadcast PrimFloat.add row
                (map (fun gk => (Float64.of_int i * gk)%float) gd)))
      (arange n).

End Spec.

(** * Properties *)

Import Numpy Colormaps Spec.

(** ** Comparisons of binary64 values *)

Section Comparisons.

Lemma SFcompare_swap (x y : spec_float) (c : comparison) :
  SFcompare x y = Some c -> SFcompare y x = Some (CompOpp c).
Proof.
  destruct x as [sx | sx | | sx mx ex], y as [sy | sy | | sy my ey];
    simpl; try discriminate;
    try (destruct sx; intros [= <-]; reflexivity);
    try (destruct sy; intros [= <-]; reflexivity);
    try (intros [= <-]; reflexivity).
  - destruct sx, sy; intros [= <-]; reflexivity.
  - pose proof (Pos.compare_cont_antisym mx my Eq) as A. simpl in A.
    destruct sx, sy; intros [= <-]; try reflexivity;
      rewrite (Z.compare_antisym ey ex);
      destruct (ey ?= ex)%Z; simpl; try reflexivity;
      now rewrite <- A.
Qed.

Lemma SFcompare_defined (x y z : spec_float) (c : comparison) :
  SFcompare x y = Some c -> z <> S754_nan ->
  exists c', SFcompare y z = Some c'.
Proof.
  destruct x, y, z; simpl; try discriminate; try congruence; eauto.
Qed.

(** A value strictly above some bound is not NaN, so it compares with
    anything that is not NaN. *)
Lemma ltb_comparable (lo x : float) (z : spec_float) :
  (lo <? x)%float = true -> z <> S754_nan ->
  exists c, SFcompare (Prim2SF x) z = Some c.
Proof.
  rewrite ltb_spec. unfold SFltb.
  destruct (SFcompare (Prim2SF lo) (Prim2SF x)) as [c|] eqn:E;
    [|discriminate].
  intros _ Hz. exact (SFcompare_defined _ _ _ _ E Hz).
Qed.

Lemma clip01_in_unit (lo hi x : float) :
  Float64.strictly_between lo hi x = true ->
  Float64.in_unit (clip01 x) = true.
Proof.
  unfold Float64.strictly_between, Float64.in_unit, clip01.
  intros H. apply andb_prop in H as [Hlo _].
  destruct (x <? 0)%float eqn:H0; [reflexivity|].
  destruct (1 <? x)%float eqn:H1; [reflexivity|].
  destruct (ltb_comparable lo x (Prim2SF 0%float) Hlo) as [c0 E0];
    [discriminate|].
  destruct (ltb_comparable lo x (Prim2SF 1%float) Hlo) as [c1 E1];
    [discriminate|].
  rewrite ltb_spec in H0, H1. rewrite !leb_spec.
  unfold SFltb, SFleb in *.
  rewrite (SFcompare_swap _ _ _ E0). rewrite E1.
  rewrite E0 in H0. rewrite (SFcompare_swap _ _ _ E1) in H1.
  destruct c0, c1; simpl in *; congruence.
Qed.

End Comparisons.

(** ** [_validate_rgb] *)

Section ValidateRgb.

Variable tolerance : float.

Let lo := (0 - tolerance)%float.
Let hi := (1 + tolerance)%float.

Lemma valid_mask_true (color : vector) :
  forallb (Float64.strictly_between lo hi) color = true <->
  Valid tolerance color.
Proof.
  unfold Valid. rewrite forallb_forall, Forall_forall.
  split; intros H c Hc; specialize (H c Hc);
    unfold Float64.strictly_between in *; subst lo hi.
  - now apply andb_prop in H.
  - now apply andb_true_intro.
Qed.

Lemma select_rows_cons (c : vector) (cs : matrix) (b : bool)
      (bs : list bool) :
  select_rows (c :: cs) (b :: bs)
  = if b then c :: select_rows cs bs else select_rows cs bs.
Proof. unfold select_rows. simpl. now destruct b. Qed.

Lemma select_rows_kept (colors : matrix) :
  Kept (Valid tolerance) colors
       (select_rows colors
          (map (forallb (Float64.strictly_between lo hi)) colors)).
Proof.
  induction colors as [|c cs IH]; [constructor|].
  simpl map. rewrite select_rows_cons.
  destruct (forallb _ c) eqn:E.
  - apply Kept_keep; [now apply valid_mask_true | exact IH].
  - apply Kept_drop; [|exact IH].
    intro V. apply valid_mask_true in V. congruence.
Qed.

Lemma Kept_length {A} (P : A -> Prop) (l k : list A) :
  Kept P l k -> length k <= length l.
Proof. induction 1; simpl; lia. Qed.

Lemma Kept_all {A} (P : A -> Prop) (l k : list A) :
  Kept P l k -> Forall P k.
Proof. induction 1; auto. Qed.

Lemma clip_valid_in_unit (color : vector) :
  Valid tolerance color ->
  Forall (fun c => Float64.in_unit c = true) (map clip01 color).
Proof.
  unfold Valid. induction 1 as [|c cs [Hl Hh] _ IH]; simpl; constructor.
  - apply (clip01_in_unit lo hi). unfold Float64.strictly_between.
    subst lo hi. now rewrite Hl, Hh.
  - exact IH.
Qed.

Lemma validate_rgb_in_unit (colors : matrix) :
  InUnitCube (validate_rgb colors tolerance).
Proof.
  unfold InUnitCube, validate_rgb. fold lo hi.
  pose proof (Kept_all _ _ _ (select_rows_kept colors)) as V.
  induction V as [|c cs Hc _ IH]; simpl; constructor.
  - now apply clip_valid_in_unit.
  - exact IH.
Qed.

Lemma validate_rgb_kept (colors : matrix) :
  exists kept : matrix,
    Kept (Valid tolerance) colors kept
    /\ validate_rgb colors tolerance = map (map clip01) kept.
Proof.
  exists (select_rows colors
            (map (forallb (Float64.strictly_between lo hi)) colors)).
  split; [apply select_rows_kept | reflexivity].
Qed.

(** C4. [validate_rgb] keeps a colour if and only if each of its channels
    lies strictly within (-tolerance, 1 + tolerance); the colours kept
    stay in their input order and are clipped channel by channel, so that
    every channel returned lies in [0, 1]; the output is no longer than
    the input. *)
Theorem validate_rgb_keeps_valid_clipped (colors : matrix) :
  exists kept : matrix,
    Kept (Valid tolerance) colors kept
    /\ validate_rgb colors tolerance = map (map clip01) kept
    /\ InUnitCube (validate_rgb colors tolerance)
    /\ length (validate_rgb colors tolerance) <= length colors.
Proof.
  destruct (validate_rgb_kept colors) as (kept & K & E).
  exists kept. split; [exact K|]. split; [exact E|].
  split; [apply validate_rgb_in_unit|].
  rewrite E, length_map. exact (Kept_length _ _ _ K).
Qed.

End ValidateRgb.

(** ** [_low_discrepancy] *)

Section LowDiscrepancy.

Lemma map_const_seq {A} (c : A) (a n : nat) :
  map (fun _ => c) (seq a n) = repeat c n.
Proof.
  revert a. induction n as [|n IH]; intros a; cbn; [reflexivity|].
  now rewrite IH.
Qed.

Lemma broadcast_to_length (seed : scalar_or_vector) (dim : Z)
      (row : vector) :
  broadcast_to seed dim = Ok row ->
  (0 <= dim)%Z /\ length row = Z.to_nat dim.
Proof.
  unfold broadcast_to. destruct (dim <? 0)%Z eqn:Hd; [discriminate|].
  apply Z.ltb_ge in Hd. destruct seed as [s|v].
  - intros [= <-]. now rewrite repeat_length.
  - destruct (Z.of_nat (length v) =? dim)%Z eqn:Hv.
    + intros [= <-]. apply Z.eqb_eq in Hv. lia.
    + destruct v as [|s [|? ?]]; try discriminate.
      intros [= <-]. now rewrite repeat_length.
Qed.

Lemma broadcast_to_raises (seed : scalar_or_vector) (dim : Z) (e : exn) :
  broadcast_to seed dim = Raise e -> e = ValueError.
Proof.
  unfold broadcast_to. destruct (dim <? 0)%Z; [congruence|].
  destruct seed as [s|v]; [discriminate|].
  destruct (Z.of_nat (length v) =? dim)%Z; [discriminate|].
  destruct v as [|s [|? ?]]; congruence.
Qed.

Lemma broadcast_to_fits (seed : scalar_or_vector) (dim : nat) :
  seed_fits seed dim ->
  broadcast_to seed (Z.of_nat dim)
  = Ok (match seed with Scalar s => repeat s dim | Vector v => v end).
Proof.
  unfold broadcast_to, seed_fits.
  destruct (Z.of_nat dim <? 0)%Z eqn:Hd; [apply Z.ltb_lt in Hd; lia|].
  destruct seed as [s|v]; [now rewrite Nat2Z.id|].
  intros <-. now rewrite Z.eqb_refl.
Qed.

Lemma low_discrepancy_rows (dim : Z) (n : nat) (seed : scalar_or_vector)
      (row : vector) :
  broadcast_to seed dim = Ok row ->
  compatible (length row) (length (slice_to dim g)) = true ->
  low_discrepancy dim n seed = Ok (rows row (slice_to dim g) n).
Proof.
  intros Hb Hc. unfold low_discrepancy, row_op. rewrite Hb. cbn [bind].
  fold g. rewrite Hc. cbn [bind]. unfold rows, column_times_row.
  now rewrite !map_map.
Qed.

Lemma rows_length (row gd : vector) (n : nat) :
  length (rows row gd n) = n.
Proof. unfold rows, arange. now rewrite !length_map, length_seq. Qed.

Lemma rows_nth (row gd : vector) (n i : nat) :
  i < n ->
  nth_error (rows row gd n) i
  = Some (map Float64.mod1
            (zip_broadcast PrimFloat.add row
               (map (fun gk => (Float64.of_int (Z.of_nat i) * gk)%float)
                    gd))).
Proof.
  intros Hi. unfold rows, arange. rewrite map_map.
  rewrite nth_error_map.
  assert (E : nth_error (seq 0 n) i = Some i).
  { rewrite nth_error_nth' with (d := 0) by now rewrite length_seq.
    now rewrite seq_nth. }
  now rewrite E.
Qed.

Lemma rows_prefix (row gd : vector) (n k : nat) :
  firstn n (rows row gd (n + k)) = rows row gd n.
Proof.
  unfold rows, arange. rewrite seq_app, !map_app, firstn_app.
  rewrite !length_map, length_seq, Nat.sub_diag. cbn [firstn].
  rewrite app_nil_r. apply firstn_all2.
  now rewrite !length_map, length_seq.
Qed.

(** C1. In dimension 1, 2 or 3, for a scalar seed or a seed of [dim]
    floats, the generator returns [n] points, and coordinate [d] of point
    [i] (both counted from 0) is [(seed_d + i * (1 / phi_d)) mod 1], with
    the constants 1.6180339887498948482, 1.3247179572447460 and
    1.2207440846057595. *)
Theorem low_discrepancy_point (dim n : nat) (seed : scalar_or_vector) :
  dim = 1 \/ dim = 2 \/ dim = 3 ->
  seed_fits seed dim ->
  exists pts : matrix,
    low_discrepancy (Z.of_nat dim) n seed = Ok pts
    /\ length pts = n
    /\ forall i, i < n ->
         exists p : vector,
           nth_error pts i = Some p
           /\ length p = dim
           /\ forall d, d < dim ->
                nth_error p d
                = Some (Float64.mod1
                          (seed_at seed d
                           + Float64.of_int (Z.of_nat i) * (1 / phi d))%float).
Proof.
  intros Hdim Hfit.
  pose proof (broadcast_to_fits seed dim Hfit) as Hb.
  eexists. split; [|split].
  - apply (low_discrepancy_rows _ _ _ _ Hb).
    destruct Hdim as [-> | [-> | ->]]; destruct seed as [s|v];
      cbn in Hfit |- *; try rewrite Hfit; reflexivity.
  - apply rows_length.
  - intros i Hi. eexists. split; [now apply rows_nth|].
    destruct Hdim as [-> | [-> | ->]]; destruct seed as [s|v];
      cbn in Hfit;
      repeat (let x := fresh "x" in destruct v as [|x v];
              try discriminate Hfit);
      (split; [reflexivity|]);
      intros d Hd;
      repeat (destruct d as [|d]; [reflexivity|]); lia.
Qed.

(** C3. The first [n] points of a draw of [n + k] points are the draw of
    [n] points; a call that raises does so for every count. *)
Theorem low_discrepancy_prefix (dim : Z) (n k : nat)
        (seed : scalar_or_vector) :
  fmap (firstn n) (low_discrepancy dim (n + k) seed)
  = low_discrepancy dim n seed.
Proof.
  destruct (broadcast_to seed dim) as [row|e] eqn:Hb.
  - destruct (compatible (length row) (length (slice_to dim g))) eqn:Hc.
    + rewrite !(low_discrepancy_rows _ _ _ _ Hb Hc). cbn.
      now rewrite rows_prefix.
    + unfold low_discrepancy, row_op. rewrite Hb. cbn [bind]. fold g.
      now rewrite Hc.
  - unfold low_discrepancy. now rewrite Hb.
Qed.

Lemma slice_to_g_length (dim : Z) :
  (0 <= dim)%Z -> length (slice_to dim g) = Nat.min (Z.to_nat dim) 3.
Proof.
  intros Hd. unfold slice_to.
  destruct (dim <? 0)%Z eqn:E; [apply Z.ltb_lt in E; lia|].
  now rewrite length_firstn.
Qed.

(** C7, as the code has it. Outside 0..3 every call raises (numpy's
    [ValueError], from broadcasting); in dimension 1, 2 or 3 a call with a
    fitting seed returns; in dimension 0 such a call returns too, [n]
    points without coordinates. *)
Theorem low_discrepancy_dimension (dim : Z) (n : nat)
        (seed : scalar_or_vector) :
  ((dim < 0 \/ 3 < dim)%Z -> low_discrepancy dim n seed = Raise ValueError)
  /\ ((1 <= dim <= 3)%Z -> seed_fits seed (Z.to_nat dim) ->
      exists pts, low_discrepancy dim n seed = Ok pts /\ length pts = n)
  /\ (dim = 0%Z -> seed_fits seed 0 ->
      low_discrepancy dim n seed = Ok (repeat [] n)).
Proof.
  split; [|split].
  - intros Hd. destruct (broadcast_to seed dim) as [row|e] eqn:Hb.
    + apply broadcast_to_length in Hb as [H0 Hl].
      destruct Hd as [Hd|Hd]; [lia|].
      unfold low_discrepancy, row_op.
      destruct (broadcast_to seed dim) as [row'|e'] eqn:Hb';
        [|apply broadcast_to_raises in Hb'; now subst].
      apply broadcast_to_length in Hb' as [_ Hl']. cbn [bind]. fold g.
      rewrite slice_to_g_length by lia. rewrite Hl'.
      replace (Nat.min (Z.to_nat dim) 3) with 3 by lia.
      unfold compatible.
      replace (Z.to_nat dim =? 3) with false
        by (symmetry; apply Nat.eqb_neq; lia).
      replace (Z.to_nat dim =? 1) with false
        by (symmetry; apply Nat.eqb_neq; lia).
      reflexivity.
    + unfold low_discrepancy. rewrite Hb.
      apply broadcast_to_raises in Hb. now subst.
  - intros Hd Hfit.
    pose proof (broadcast_to_fits seed (Z.to_nat dim) Hfit) as Hb.
    rewrite Z2Nat.id in Hb by lia.
    eexists. split; [|apply rows_length].
    apply (low_discrepancy_rows _ _ _ _ Hb).
    rewrite slice_to_g_length by lia.
    replace (length _) with (Z.to_nat dim)
      by (destruct seed; cbn in Hfit |- *;
          [now rewrite repeat_length | congruence]).
    unfold compatible.
    replace (Nat.min (Z.to_nat dim) 3) with (Z.to_nat dim) by lia.
    now rewrite Nat.eqb_refl.
  - intros -> Hfit.
    pose proof (broadcast_to_fits seed 0 Hfit) as Hb.
    rewrite (low_discrepancy_rows 0 n seed _ Hb).
    + unfold rows, arange. rewrite map_map.
      destruct seed as [s|v]; cbn in Hfit |- *.
      * f_equal. apply map_const_seq.
      * apply length_zero_iff_nil in Hfit. subst v.
        f_equal. apply map_const_seq.
    + destruct seed as [s|v]; cbn in Hfit |- *; [reflexivity|].
      now rewrite Hfit.
Qed.

End LowDiscrepancy.

(** ** [_low_discrepancy_image] *)

Section LabelHash.

(** C8. The hash of a label [l] is [(seed + l / phi_1) mod 1] with
    [phi_1 = 1.6180339887498948482]; on an array of labels the function
    returns one value per label, and the value at the position of [l] is
    the one computed for [l] alone with the same seed. *)
Theorem low_discrepancy_image_pointwise (a : list Z) (seed : float)
        (i : nat) (l : Z) :
  nth_error a i = Some l ->
  low_discrepancy_image (Label l) seed
  = Scalar (Float64.mod1
              (seed + Float64.of_int l / 1.6180339887498948482)%float)
  /\ exists v : vector,
       low_discrepancy_image (LabelArray a) seed = Vector v
       /\ length v = length a
       /\ nth_error v i
          = Some (Float64.mod1
                    (seed + Float64.of_int l / 1.6180339887498948482)%float)
       /\ low_discrepancy_image (Label l) seed
          = Scalar (nth i v 0%float).
Proof.
  intros Hl. split; [reflexivity|].
  eexists. split; [reflexivity|].
  assert (E : nth_error
                (map Float64.mod1
                   (map (fun q => (seed + q)%float)
                      (map (fun l =>
                              (Float64.of_int l / 1.6180339887498948482)%float)
                           a))) i
              = Some (Float64.mod1
                        (seed + Float64.of_int l / 1.6180339887498948482)%float)).
  { rewrite !nth_error_map, Hl. reflexivity. }
  split; [now rewrite !length_map|]. split; [exact E|].
  cbn [low_discrepancy_image]. f_equal. symmetry.
  now apply nth_error_nth.
Qed.

End LabelHash.

(** ** [_color_random] *)

Section ColorRandom.

Variables lab2rgb luv2rgb : matrix -> matrix.

(** The converters return a colour (three channels) for each colour. *)
Hypothesis lab2rgb_triples : forall m, Triples m -> Triples (lab2rgb m).
Hypothesis luv2rgb_triples : forall m, Triples m -> Triples (luv2rgb m).

Variable G : globals.
Variable n : nat.
Variable tolerance : float.
Variable seed : scalar_or_vector.

Lemma to_rgb_default (colorspace : string) (random : matrix) :
  colorspace <> "luv"%string -> colorspace <> "rgb"%string ->
  to_rgb lab2rgb luv2rgb G colorspace random
  = to_rgb lab2rgb luv2rgb G "lab" random.
Proof.
  intros Hluv Hrgb. unfold to_rgb.
  apply String.eqb_neq in Hluv, Hrgb. now rewrite Hluv, Hrgb.
Qed.

Lemma loop_default (colorspace : string) (fuel : nat) :
  colorspace <> "luv"%string -> colorspace <> "rgb"%string ->
  forall rgb factor,
    color_random_loop lab2rgb luv2rgb fuel G n colorspace tolerance seed
                      rgb factor
    = color_random_loop lab2rgb luv2rgb fuel G n "lab" tolerance seed
                        rgb factor.
Proof.
  intros Hluv Hrgb.
  induction fuel as [|fuel IH]; intros rgb factor; cbn [color_random_loop];
    [reflexivity|].
  destruct (length rgb <? n); [|reflexivity].
  unfold draw.
  destruct (low_discrepancy 3 (n * factor) seed) as [random|e];
    cbn [bind]; [|reflexivity].
  rewrite (to_rgb_default colorspace random Hluv Hrgb).
  destruct (to_rgb lab2rgb luv2rgb G "lab" random); cbn [bind];
    [apply IH | reflexivity].
Qed.

(** C10. A colorspace that is neither "luv" nor "rgb" is treated as "lab":
    the call does what the call with "lab" does, whether that is to return
    colours, to raise, or to keep looping. *)
Theorem color_random_other_colorspace_is_lab (fuel : nat)
        (colorspace : string) :
  colorspace <> "luv"%string -> colorspace <> "rgb"%string ->
  color_random lab2rgb luv2rgb fuel G n colorspace tolerance seed
  = color_random lab2rgb luv2rgb fuel G n "lab" tolerance seed.
Proof.
  intros Hluv Hrgb. unfold color_random. now apply loop_default.
Qed.


Lemma zip_broadcast_row_length (f : float -> float -> float)
      (r row : vector) :
  length r = 3 -> compatible 3 (length row) = true ->
  length (zip_broadcast f r row) = 3.
Proof.
  intros Hr Hc. unfold zip_broadcast.
  destruct (length r =? length row) eqn:E.
  - apply Nat.eqb_eq in E. unfold zip_with.
    rewrite length_map, length_combine. lia.
  - rewrite Hr in E. unfold compatible in Hc. rewrite E in Hc.
    cbn in Hc.
    destruct row as [|y [|? ?]]; try discriminate.
    destruct r as [|a [|b [|c [|? ?]]]]; try discriminate. reflexivity.
Qed.

Lemma op_row_triples (f : float -> float -> float) (m m' : matrix)
      (row : vector) :
  op_row f 3 m row = Ok m' -> Triples m -> Triples m'.
Proof.
  unfold op_row, Triples.
  destruct (compatible 3 (length row)) eqn:Hc; [|discriminate].
  intros [= <-] Hm. apply Forall_map.
  eapply Forall_impl; [|exact Hm].
  intros r Hr. now apply zip_broadcast_row_length.
Qed.

Lemma rescale_triples (random m : matrix) (rng mn : vector) :
  rescale random rng mn = Ok m -> Triples random -> Triples m.
Proof.
  unfold rescale.
  destruct (op_row PrimFloat.mul 3 random rng) as [scaled|e] eqn:E;
    cbn [bind]; [|discriminate].
  intros Hadd Hr.
  exact (op_row_triples _ _ _ _ Hadd (op_row_triples _ _ _ _ E Hr)).
Qed.

Lemma to_rgb_triples (colorspace : string) (random raw_rgb : matrix) :
  to_rgb lab2rgb luv2rgb G colorspace random = Ok raw_rgb ->
  Triples random -> Triples raw_rgb.
Proof.
  unfold to_rgb, fmap.
  destruct (String.eqb colorspace "luv");
    [|destruct (String.eqb colorspace "rgb")].
  - destruct (rescale random (LUVRNG G) (LUVMIN G)) as [m|e] eqn:E;
      cbn [bind]; [|discriminate].
    intros [= <-] Hr. apply luv2rgb_triples.
    exact (rescale_triples _ _ _ _ E Hr).
  - now intros [= <-].
  - destruct (rescale random (LABRNG G) (LABMIN G)) as [m|e] eqn:E;
      cbn [bind]; [|discriminate].
    intros [= <-] Hr. apply lab2rgb_triples.
    exact (rescale_triples _ _ _ _ E Hr).
Qed.

Lemma low_discrepancy_triples (m : nat) (random : matrix) :
  low_discrepancy 3 m seed = Ok random -> Triples random.
Proof.
  intros H.
  destruct (broadcast_to seed 3) as [row|e] eqn:Hb;
    [|unfold low_discrepancy in H; now rewrite Hb in H].
  pose proof (broadcast_to_length _ _ _ Hb) as [_ Hl].
  assert (Hc : compatible (length row) (length (slice_to 3 g)) = true)
    by now rewrite Hl.
  rewrite (low_discrepancy_rows _ _ _ _ Hb Hc) in H.
  injection H as <-. unfold Triples, rows.
  apply Forall_map, Forall_forall. intros i _.
  rewrite length_map.
  destruct row as [|a [|b [|c [|? ?]]]]; try discriminate Hl.
  reflexivity.
Qed.

Lemma validate_rgb_triples (colors : matrix) :
  Triples colors -> Triples (validate_rgb colors tolerance).
Proof.
  intros Hc.
  destruct (validate_rgb_kept tolerance colors) as (kept & K & ->).
  unfold Triples in *. apply Forall_map.
  induction K as [|x l k _ _ IH|x l k _ _ IH]; [constructor| |];
    inversion Hc; subst; [constructor|]; auto.
  now rewrite length_map.
Qed.

(** The factor of pass [k] of the loop (counted from 0). *)
Lemma factor_step (factor k : nat) :
  factor * expand_factor * 2 ^ k = factor * 2 ^ S k.
Proof. unfold expand_factor. cbn [Nat.pow]. lia. Qed.

Lemma loop_returns (colorspace : string) (fuel : nat) :
  forall rgb0 factor rgb,
    color_random_loop lab2rgb luv2rgb fuel G n colorspace tolerance seed
                      rgb0 factor = Some (Ok rgb) ->
    (n <= length rgb0 /\ rgb = firstn n rgb0)
    \/ (length rgb0 < n
        /\ exists k valid,
             k < fuel
             /\ draw lab2rgb luv2rgb G n colorspace tolerance seed
                     (factor * 2 ^ k) = Ok valid
             /\ n <= length valid
             /\ rgb = firstn n valid
             /\ forall j, j < k ->
                  exists fewer,
                    draw lab2rgb luv2rgb G n colorspace tolerance seed
                         (factor * 2 ^ j) = Ok fewer
                    /\ length fewer < n).
Proof.
  induction fuel as [|fuel IH]; intros rgb0 factor rgb;
    cbn [color_random_loop];
    destruct (length rgb0 <? n) eqn:Hlt;
    try (apply Nat.ltb_ge in Hlt; intros [= <-]; now left);
    [discriminate|].
  apply Nat.ltb_lt in Hlt.
  destruct (draw lab2rgb luv2rgb G n colorspace tolerance seed factor)
    as [rgb'|e] eqn:Hd; [|discriminate].
  intros Hloop. right. split; [exact Hlt|].
  destruct (IH _ _ _ Hloop) as [[Hn ->] | (Hn & k & valid & Hk & Hv & Hlen
                                            & -> & Hfew)].
  - exists 0, rgb'. rewrite Nat.mul_1_r.
    repeat split; auto; [lia|]. intros j Hj. lia.
  - exists (S k), valid. rewrite <- factor_step.
    repeat split; auto; [lia|].
    intros [|j] Hj.
    + exists rgb'. now rewrite Nat.mul_1_r.
    + rewrite <- factor_step. apply Hfew. lia.
Qed.

(** More fuel does not change what a loop that ended has returned: the
    fuel only bounds the search for the outcome. *)
Lemma loop_more_fuel (colorspace : string) (fuel extra : nat) :
  forall rgb factor outcome,
    color_random_loop lab2rgb luv2rgb fuel G n colorspace tolerance seed
                      rgb factor = Some outcome ->
    color_random_loop lab2rgb luv2rgb (fuel + extra) G n colorspace
                      tolerance seed rgb factor = Some outcome.
Proof.
  induction fuel as [|fuel IH]; intros rgb factor outcome.
  - cbn [color_random_loop]. destruct (length rgb <? n) eqn:E;
      [discriminate|].
    intros H. destruct extra; cbn [Nat.add color_random_loop];
      now rewrite E.
  - cbn [Nat.add color_random_loop]. destruct (length rgb <? n);
      [|auto].
    destruct (draw lab2rgb luv2rgb G n colorspace tolerance seed factor);
      [apply IH | auto].
Qed.

Lemma color_random_more_fuel (colorspace : string) (fuel extra : nat)
      (outcome : result matrix) :
  color_random lab2rgb luv2rgb fuel G n colorspace tolerance seed
  = Some outcome ->
  color_random lab2rgb luv2rgb (fuel + extra) G n colorspace tolerance seed
  = Some outcome.
Proof. unfold color_random. apply loop_more_fuel. Qed.

Lemma Forall_firstn' {A} (P : A -> Prop) (k : nat) (l : list A) :
  Forall P l -> Forall P (firstn k l).
Proof.
  intros H. revert k. induction H; intros [|k]; cbn; auto.
Qed.

Lemma color_random_shape (fuel : nat) (colorspace : string)
      (rgb : matrix) :
  1 <= n ->
  color_random lab2rgb luv2rgb fuel G n colorspace tolerance seed
  = Some (Ok rgb) ->
  length rgb = n /\ Triples rgb.
Proof.
  intros Hn Hret. unfold color_random in Hret.
  apply loop_returns in Hret
    as [[H0 _] | (_ & k & valid & Hk & Hd & Hlen & -> & Hfew)];
    [cbn in H0; lia|].
  split; [rewrite length_firstn; lia|].
  unfold draw in Hd.
  destruct (low_discrepancy 3 (n * (6 * 2 ^ k)) seed) as [random|e]
    eqn:Hr; cbn [bind] in Hd; [|discriminate].
  destruct (to_rgb lab2rgb luv2rgb G colorspace random) as [raw_rgb|e]
    eqn:Hc; cbn [bind] in Hd; [|discriminate].
  injection Hd as <-.
  apply Forall_firstn', validate_rgb_triples.
  exact (to_rgb_triples _ _ _ Hc (low_discrepancy_triples _ _ Hr)).
Qed.

(** C2. When [color_random] returns for [n >= 1], it returns exactly [n]
    colours of three channels, each channel in [0, 1]; they are the first
    [n], in generation order, of the valid colours of the last draw, which
    is the first draw (factors 6, 12, 24, ...) that has [n] valid colours. *)
Theorem color_random_first_n_valid (fuel : nat) (colorspace : string)
        (rgb : matrix) :
  1 <= n ->
  color_random lab2rgb luv2rgb fuel G n colorspace tolerance seed
  = Some (Ok rgb) ->
  length rgb = n
  /\ Triples rgb
  /\ InUnitCube rgb
  /\ exists k random raw_rgb,
       k < fuel
       /\ low_discrepancy 3 (n * (6 * 2 ^ k)) seed = Ok random
       /\ to_rgb lab2rgb luv2rgb G colorspace random = Ok raw_rgb
       /\ n <= length (validate_rgb raw_rgb tolerance)
       /\ rgb = firstn n (validate_rgb raw_rgb tolerance)
       /\ forall j, j < k ->
            exists fewer,
              draw lab2rgb luv2rgb G n colorspace tolerance seed
                   (6 * 2 ^ j) = Ok fewer
              /\ length fewer < n.
Proof.
  intros Hn Hret.
  destruct (color_random_shape _ _ _ Hn Hret) as [Hlen3 Htri].
  split; [exact Hlen3|]. split; [exact Htri|].
  unfold color_random in Hret.
  apply loop_returns in Hret
    as [[H0 _] | (_ & k & valid & Hk & Hd & Hlen & -> & Hfew)];
    [cbn in H0; lia|].
  unfold draw in Hd.
  destruct (low_discrepancy 3 (n * (6 * 2 ^ k)) seed) as [random|e]
    eqn:Hr; cbn [bind] in Hd; [|discriminate].
  destruct (to_rgb lab2rgb luv2rgb G colorspace random) as [raw_rgb|e]
    eqn:Hc; cbn [bind] in Hd; [|discriminate].
  injection Hd as <-.
  split; [apply Forall_firstn', validate_rgb_in_unit|].
  exists k, random, raw_rgb. repeat split; auto.
Qed.

End ColorRandom.

(** ** [label_colormap] *)

Section LabelColormap.

Variables lab2rgb luv2rgb : matrix -> matrix.
Hypothesis lab2rgb_triples : forall m, Triples m -> Triples (lab2rgb m).

Variable G : globals.
Variable seed : scalar_or_vector.

Lemma set_last_length {A} (l : list A) (v : A) :
  length (set_last l v) = length l.
Proof.
  induction l as [|x [|y l] IH]; cbn in *; auto.
Qed.

Lemma set_last_last {A} (l : list A) (v d : A) :
  l <> [] -> last (set_last l v) d = v.
Proof.
  induction l as [|x [|y l] IH]; intros H; [congruence|reflexivity|].
  change (set_last (x :: y :: l) v) with (x :: set_last (y :: l) v).
  change (last (x :: set_last (y :: l) v) d)
    with (match set_last (y :: l) v with
          | [] => x
          | _ :: _ => last (set_last (y :: l) v) d
          end).
  specialize (IH ltac:(discriminate)).
  destruct (set_last (y :: l) v) eqn:E; [|exact IH].
  apply (f_equal (@length A)) in E. rewrite set_last_length in E.
  discriminate.
Qed.

Lemma linspace_length (start stop : float) (num : nat) :
  exists v, linspace start stop (Z.of_nat num) = Ok v
            /\ length v = num
            /\ (2 <= num -> last v 0%float = stop).
Proof.
  unfold linspace.
  destruct (Z.of_nat num <? 0)%Z eqn:E; [apply Z.ltb_lt in E; lia|].
  rewrite Nat2Z.id.
  destruct (1 <? Z.of_nat num)%Z eqn:E1.
  - eexists. split; [reflexivity|]. split.
    + rewrite set_last_length.
      destruct (_ =? _)%float;
        unfold arange; now rewrite !length_map, length_seq.
    + intros _. apply set_last_last. apply Z.ltb_lt in E1.
      destruct num as [|num]; [lia|].
      destruct (_ =? _)%float; unfold arange; cbn; discriminate.
  - eexists. split; [reflexivity|]. split.
    + unfold arange. now rewrite !length_map, length_seq.
    + apply Z.ltb_ge in E1. lia.
Qed.

Lemma control_points_shape (num_colors : nat) :
  1 <= num_colors ->
  exists midpoints,
    linspace 0 1 (Z.of_nat num_colors - 1) = Ok midpoints
    /\ length midpoints = num_colors - 1
    /\ (3 <= num_colors -> last midpoints 0%float = 1%float)
    /\ control_points num_colors
       = Ok ([0%float] ++ midpoints ++ [1%float]).
Proof.
  intros Hn. unfold control_points.
  replace (Z.of_nat num_colors - 1)%Z with (Z.of_nat (num_colors - 1))
    by lia.
  destruct (linspace_length 0 1 (num_colors - 1)) as (v & -> & Hl & Hlast).
  exists v. repeat split; auto. intros H3. apply Hlast. lia.
Qed.

(** With "lab" the luv converter is never called. *)
Lemma loop_lab_ignores_luv (other : matrix -> matrix) (fuel n : nat)
      (tolerance : float) :
  forall rgb factor,
    color_random_loop lab2rgb luv2rgb fuel G n "lab" tolerance seed
                      rgb factor
    = color_random_loop lab2rgb other fuel G n "lab" tolerance seed
                        rgb factor.
Proof.
  induction fuel as [|fuel IH]; intros rgb factor; cbn [color_random_loop];
    [reflexivity|].
  destruct (length rgb <? n); [|reflexivity].
  change (draw lab2rgb luv2rgb G n "lab" tolerance seed factor)
    with (draw lab2rgb other G n "lab" tolerance seed factor).
  destruct (draw lab2rgb other G n "lab" tolerance seed factor);
    [apply IH | reflexivity].
Qed.

Lemma color_random_lab_shape (fuel n : nat) (rgb : matrix) :
  1 <= n ->
  color_random lab2rgb luv2rgb fuel G n "lab" 0 seed = Some (Ok rgb) ->
  length rgb = n /\ Triples rgb.
Proof.
  intros Hn Hret. unfold color_random in Hret.
  rewrite (loop_lab_ignores_luv lab2rgb) in Hret.
  exact (color_random_shape lab2rgb lab2rgb lab2rgb_triples
           lab2rgb_triples G n 0%float seed fuel "lab" rgb Hn Hret).
Qed.

Lemma label_colormap_returns (fuel num_colors : nat) (cmap : Colormap) :
  1 <= num_colors ->
  label_colormap lab2rgb luv2rgb fuel G num_colors seed = Some (Ok cmap) ->
  exists points rgb first rest,
    control_points num_colors = Ok points
    /\ color_random lab2rgb luv2rgb fuel G num_colors "lab" 0 seed
       = Some (Ok rgb)
    /\ zip_with (fun r s => r ++ s) rgb (full_column num_colors 1)
       = first :: rest
    /\ cmap = {| colors := map (fun _ => 0%float) first :: rest;
                 controls := points;
                 interpolation := "zero" |}.
Proof.
  intros Hn. unfold label_colormap.
  destruct (control_points num_colors) as [points|e]; [|discriminate].
  destruct (color_random _ _ _ _ _ _ _ _) as [[rgb|e]|]; try discriminate.
  unfold concatenate_axis1.
  destruct (length rgb =? length (full_column num_colors 1));
    cbn [bind]; [|discriminate].
  destruct (zip_with _ rgb _) as [|first rest] eqn:Ez; cbn; [discriminate|].
  intros [= <-]. now exists points, rgb, first, rest.
Qed.

Lemma label_colormap_more_fuel (fuel extra num_colors : nat)
      (outcome : result Colormap) :
  label_colormap lab2rgb luv2rgb fuel G num_colors seed = Some outcome ->
  label_colormap lab2rgb luv2rgb (fuel + extra) G num_colors seed
  = Some outcome.
Proof.
  unfold label_colormap.
  destruct (control_points num_colors) as [points|e]; [|auto].
  destruct (color_random lab2rgb luv2rgb fuel G num_colors "lab" 0 seed)
    as [o|] eqn:E; [|discriminate].
  now rewrite (color_random_more_fuel _ _ _ _ _ _ _ _ extra _ E).
Qed.

(** C5, as the code has it. The colormap returned for [n >= 2] has exactly
    [n] colours and [n + 1] control points: 0, then the [n - 1] points of
    [linspace(0, 1, n - 1)] (the last of which is 1 when [n >= 3]),
    then 1. *)
Theorem label_colormap_sizes (fuel num_colors : nat) (cmap : Colormap) :
  2 <= num_colors ->
  label_colormap lab2rgb luv2rgb fuel G num_colors seed = Some (Ok cmap) ->
  length (colors cmap) = num_colors
  /\ length (controls cmap) = num_colors + 1
  /\ exists midpoints,
       linspace 0 1 (Z.of_nat num_colors - 1) = Ok midpoints
       /\ length midpoints = num_colors - 1
       /\ (3 <= num_colors -> last midpoints 0%float = 1%float)
       /\ controls cmap = [0%float] ++ midpoints ++ [1%float].
Proof.
  intros Hn Hret.
  assert (H1 : 1 <= num_colors) by lia.
  destruct (label_colormap_returns _ _ _ H1 Hret)
    as (points & rgb & first & rest & Hp & Hrgb & Hz & ->).
  destruct (control_points_shape num_colors H1)
    as (mid & Hlin & Hlen & Hlast & Hcp).
  rewrite Hcp in Hp. injection Hp as <-.
  apply color_random_lab_shape in Hrgb as [Hrl _]; [|lia].
  cbn [colors controls]. split; [|split].
  - apply (f_equal (@length _)) in Hz. unfold zip_with, full_column in Hz.
    rewrite length_map, length_combine, repeat_length in Hz.
    cbn [length] in Hz |- *. lia.
  - cbn [length app]. rewrite length_app. cbn. lia.
  - now exists mid.
Qed.


(** C6. The first colour of a colormap returned for [num_colors >= 1] is
    [0, 0, 0, 0], whatever the seed and whatever colour the generator
    produced for that slot. *)
Theorem label_colormap_first_transparent (fuel num_colors : nat)
        (cmap : Colormap) :
  1 <= num_colors ->
  label_colormap lab2rgb luv2rgb fuel G num_colors seed = Some (Ok cmap) ->
  nth_error (colors cmap) 0 = Some [0; 0; 0; 0]%float.
Proof.
  intros Hn Hret.
  destruct (label_colormap_returns _ _ _ Hn Hret)
    as (points & rgb & first & rest & _ & Hrgb & Hz & ->).
  apply color_random_lab_shape in Hrgb as [Hlen Htri]; [|exact Hn].
  cbn [colors nth_error]. f_equal.
  destruct rgb as [|r rgb]; [cbn in Hlen; lia|].
  destruct num_colors as [|k]; [lia|].
  cbn in Hz. injection Hz as <- _.
  inversion Htri as [|? ? Hr _]; subst.
  destruct r as [|a [|b [|c [|? ?]]]]; try discriminate Hr.
  reflexivity.
Qed.

End LabelColormap.

(** ** Calls in sequence *)

Section Sessions.

Import Session.

Variables lab2rgb luv2rgb : matrix -> matrix.
Variable fuel : nat.

Local Abbreviation exec := (Session.exec lab2rgb luv2rgb fuel).
Local Abbreviation run := (Session.run lab2rgb luv2rgb fuel).

Lemma exec_globals (c : call) (G : globals) : snd (exec c G) = G.
Proof. now destruct c. Qed.

Lemma run_outcomes (cs : list call) (G : globals) :
  run cs G = (map (fun c => fst (exec c G)) cs, G).
Proof.
  induction cs as [|c cs IH]; [reflexivity|].
  cbn [Session.run map].
  pose proof (exec_globals c G) as HG.
  destruct (exec c G) as [o G'] eqn:E.
  cbn in HG. subst G'. now rewrite IH.
Qed.


End Sessions.

(** ** The properties at concrete inputs *)

Section Instances.

Import Standin.

Lemma to_grey_triples (m : matrix) : Triples m -> Triples (to_grey m).
Proof.
  intros _. unfold Triples, to_grey. apply Forall_map, Forall_forall.
  reflexivity.
Qed.

Lemma unchanged_triples (m : matrix) : Triples m -> Triples (unchanged m).
Proof. exact (fun H => H). Qed.

(** The colours of the docstring of [_validate_rgb]. The bounds are
    strict: with tolerance 0 the colour [0, 1, 1], whose channels sit on
    the bounds, is dropped; with tolerance 0.15 it is kept, and so is the
    second colour, clipped. *)
Example validate_rgb_docstring_colors :
  let colors := [[0; 1; 1]; [1.1; 0; -0.03]; [1.2; 1; 0.5]]%float in
  validate_rgb colors 0 = []
  /\ validate_rgb colors 0.15 = [[0; 1; 1]; [1; 0; 0]]%float.
Proof. split; reflexivity. Qed.

(** [% 1] on a few values: the result takes the sign of the divisor, and
    a tiny negative value rounds up to 1. *)
Example mod1_values :
  map Float64.mod1 [2.75; -0.25; -3; 26.457427527495582; -1e-20]%float
  = [0.75; 0.75; 0; 0.45742752749558235; 1]%float.
Proof. reflexivity. Qed.

(** The constants as the specification writes them are the binary64
    values of the source's longer literals. *)
Example phi_literals : [phi1; phi2; phi3] = [phi 0; phi 1; phi 2].
Proof. reflexivity. Qed.

(** The first points in dimension 2 from the seed 0.5. *)
Example low_discrepancy_first_points :
  low_discrepancy 2 3 (Scalar 0.5)
  = Ok [[0.5; 0.5];
        [0.1180339887498949; 0.25487766624669272];
        [0.73606797749978958; 0.0097553324933854491]]%float.
Proof. reflexivity. Qed.

(** A seed of two floats does not fit dimension 3. *)
Example low_discrepancy_seed_mismatch :
  low_discrepancy 3 4 (Vector [0.5; 0.5]%float) = Raise ValueError.
Proof. reflexivity. Qed.

(** Four points in dimension 3 from the scalar seed 0.5. *)
Lemma low_discrepancy_point_witness :
  (3 = 1 \/ 3 = 2 \/ 3 = 3)
  /\ seed_fits (Scalar 0.5) 3
  /\ exists pts : matrix,
       low_discrepancy 3 4 (Scalar 0.5) = Ok pts
       /\ length pts = 4
       /\ forall i, i < 4 ->
            exists p : vector,
              nth_error pts i = Some p
              /\ length p = 3
              /\ forall d, d < 3 ->
                   nth_error p d
                   = Some (Float64.mod1
                             (seed_at (Scalar 0.5) d
                              + Float64.of_int (Z.of_nat i)
                                * (1 / phi d))%float).
Proof.
  split; [right; right; reflexivity|]. split; [exact I|].
  exact (low_discrepancy_point 3 4 (Scalar 0.5)
           (or_intror (or_intror eq_refl)) I).
Defined.

(** Dimension 0 is accepted: four points without coordinates. *)
Lemma low_discrepancy_dimension_zero_returns :
  low_discrepancy 0 4 (Scalar 0.5) = Ok [[]; []; []; []].
Proof. reflexivity. Qed.

(** Dimension 4 raises, dimension 2 returns its five points, dimension 0
    returns three points without coordinates. *)
Lemma low_discrepancy_dimension_witness :
  low_discrepancy 4 2 (Scalar 0.5) = Raise ValueError
  /\ (exists pts, low_discrepancy 2 5 (Scalar 0.5) = Ok pts
                  /\ length pts = 5)
  /\ low_discrepancy 0 3 (Scalar 0.5) = Ok (repeat [] 3).
Proof.
  split; [|split].
  - destruct (low_discrepancy_dimension 4 2 (Scalar 0.5)) as (H & _ & _).
    apply H. right. reflexivity.
  - destruct (low_discrepancy_dimension 2 5 (Scalar 0.5)) as (_ & H & _).
    apply H; [split; discriminate | exact I].
  - destruct (low_discrepancy_dimension 0 3 (Scalar 0.5)) as (_ & _ & H).
    apply H; [reflexivity | exact I].
Defined.

(** One colour from the "rgb" colorspace: the first point of the
    sequence. *)
Lemma color_random_first_n_valid_witness :
  1 <= 1
  /\ color_random unchanged unchanged 1 module_globals 1 "rgb" 0
                  (Scalar 0.5)
     = Some (Ok [[0.5; 0.5; 0.5]]%float)
  /\ length [[0.5; 0.5; 0.5]]%float = 1
  /\ Triples [[0.5; 0.5; 0.5]]%float
  /\ InUnitCube [[0.5; 0.5; 0.5]]%float.
Proof.
  split; [exact (le_n 1)|]. split; [reflexivity|].
  destruct (color_random_first_n_valid
              unchanged unchanged unchanged_triples unchanged_triples
              module_globals 1 0%float (Scalar 0.5) 1 "rgb"
              [[0.5; 0.5; 0.5]]%float (le_n 1) eq_refl)
    as (Hlen & Htri & Hunit & _).
  exact (conj Hlen (conj Htri Hunit)).
Defined.

(** "hsv" is sampled as "lab". *)
Lemma color_random_other_colorspace_is_lab_witness :
  "hsv"%string <> "luv"%string
  /\ "hsv"%string <> "rgb"%string
  /\ color_random to_grey unchanged 1 module_globals 2 "hsv" 0 (Scalar 0.5)
     = color_random to_grey unchanged 1 module_globals 2 "lab" 0
                    (Scalar 0.5).
Proof.
  assert (Hluv : "hsv"%string <> "luv"%string) by discriminate.
  assert (Hrgb : "hsv"%string <> "rgb"%string) by discriminate.
  split; [exact Hluv|]. split; [exact Hrgb|].
  exact (color_random_other_colorspace_is_lab
           to_grey unchanged module_globals 2 0%float (Scalar 0.5) 1 "hsv"
           Hluv Hrgb).
Defined.

(** The label 42 alone and within the labels 0 .. 100. *)
Lemma low_discrepancy_image_pointwise_witness :
  nth_error (arange 101) 42 = Some 42%Z
  /\ exists v : vector,
       low_discrepancy_image (LabelArray (arange 101)) 0.5 = Vector v
       /\ low_discrepancy_image (Label 42) 0.5 = Scalar (nth 42 v 0%float).
Proof.
  split; [reflexivity|].
  destruct (low_discrepancy_image_pointwise
              (arange 101) 0.5%float 42 42%Z eq_refl)
    as (_ & v & Hv & _ & _ & Hs).
  exists v. exact (conj Hv Hs).
Defined.

(** Two colours come with three control points, 0, 0 and 1: the point
    between the ends is not strictly inside (0, 1). *)
Lemma label_colormap_two_colors_three_controls :
  control_points 2 = Ok [0; 0; 1]%float
  /\ label_colormap to_grey unchanged 1 module_globals 2 (Scalar 0.5)
     = Some (Ok two_colors)
  /\ length (controls two_colors) = 3.
Proof. repeat split; reflexivity. Qed.

Lemma label_colormap_sizes_witness :
  2 <= 2
  /\ label_colormap to_grey unchanged 1 module_globals 2 (Scalar 0.5)
     = Some (Ok two_colors)
  /\ length (colors two_colors) = 2
  /\ length (controls two_colors) = 2 + 1.
Proof.
  split; [exact (le_n 2)|]. split; [reflexivity|].
  destruct (label_colormap_sizes
              to_grey unchanged to_grey_triples module_globals (Scalar 0.5)
              1 2 two_colors (le_n 2) eq_refl)
    as (Hc & Hp & _).
  exact (conj Hc Hp).
Defined.

Lemma label_colormap_first_transparent_witness :
  1 <= 2
  /\ label_colormap to_grey unchanged 1 module_globals 2 (Scalar 0.5)
     = Some (Ok two_colors)
  /\ nth_error (colors two_colors) 0 = Some [0; 0; 0; 0]%float.
Proof.
  split; [exact (le_S 1 1 (le_n 1))|]. split; [reflexivity|].
  exact (label_colormap_first_transparent
           to_grey unchanged to_grey_triples module_globals (Scalar 0.5)
           1 2 two_colors (le_S 1 1 (le_n 1)) eq_refl).
Defined.

End Instances.

(** * Further properties of colormaps.py *)

(** ** [_color_random]: when the loop ends and when it does not *)

Section ColorRandomLoop.

Variables lab2rgb luv2rgb : matrix -> matrix.
Hypothesis lab2rgb_triples : forall m, Triples m -> Triples (lab2rgb m).
Hypothesis luv2rgb_triples : forall m, Triples m -> Triples (luv2rgb m).

Variable G : globals.
Variable n : nat.
Variable seed : scalar_or_vector.

Local Abbreviation loop := (color_random_loop lab2rgb luv2rgb).
Local Abbreviation pass := (draw lab2rgb luv2rgb G n).

Lemma loop_done (colorspace : string) (tolerance : float) (fuel : nat)
      (rgb : matrix) (factor : nat) :
  n <= length rgb ->
  loop fuel G n colorspace tolerance seed rgb factor
  = Some (Ok (firstn n rgb)).
Proof.
  intros H. apply Nat.ltb_ge in H.
  destruct fuel; cbn [color_random_loop]; now rewrite H.
Qed.

Lemma loop_finds (colorspace : string) (tolerance : float) (k : nat) :
  forall fuel rgb factor valid,
    length rgb < n ->
    (forall j, j < k ->
       exists fewer, pass colorspace tolerance seed (factor * 2 ^ j)
                     = Ok fewer /\ length fewer < n) ->
    pass colorspace tolerance seed (factor * 2 ^ k) = Ok valid ->
    n <= length valid ->
    k < fuel ->
    loop fuel G n colorspace tolerance seed rgb factor
    = Some (Ok (firstn n valid)).
Proof.
  induction k as [|k IH]; intros fuel rgb factor valid Hlt Hfew Hd Hn Hk;
    (destruct fuel as [|fuel]; [lia|]);
    cbn [color_random_loop];
    apply Nat.ltb_lt in Hlt; rewrite Hlt.
  - rewrite Nat.mul_1_r in Hd. rewrite Hd. now apply loop_done.
  - destruct (Hfew 0) as (fewer & Hf & Hfl); [lia|].
    rewrite Nat.mul_1_r in Hf. rewrite Hf.
    apply IH; auto; [| |lia].
    + intros j Hj. rewrite factor_step. apply Hfew. lia.
    + now rewrite factor_step.
Qed.

(** X1. If the draws with factors 6, 12, ..., 6 * 2^(k-1) each leave fewer
    than [n] valid colours and the draw with factor 6 * 2^k leaves at least
    [n], then [color_random] returns, after [k + 1] passes, the first [n]
    valid colours of that draw. *)
Theorem color_random_returns_with_fuel (colorspace : string)
        (tolerance : float) (k fuel : nat) (valid : matrix) :
  1 <= n ->
  (forall j, j < k ->
     exists fewer, pass colorspace tolerance seed (6 * 2 ^ j) = Ok fewer
                   /\ length fewer < n) ->
  pass colorspace tolerance seed (6 * 2 ^ k) = Ok valid ->
  n <= length valid ->
  k < fuel ->
  color_random lab2rgb luv2rgb fuel G n colorspace tolerance seed
  = Some (Ok (firstn n valid)).
Proof.
  intros Hn Hfew Hd Hlen Hk. unfold color_random.
  apply (loop_finds colorspace tolerance k); auto.
Qed.

Lemma nan_bound_excludes (c : float) :
  Float64.strictly_between (0 - nan) (1 + nan) c = false.
Proof.
  unfold Float64.strictly_between.
  change (0 - nan)%float with nan. rewrite ltb_spec.
  change (Prim2SF nan) with S754_nan. reflexivity.
Qed.

Lemma validate_rgb_nan (colors : matrix) :
  Triples colors -> validate_rgb colors nan = [].
Proof.
  unfold validate_rgb, Triples.
  induction 1 as [|row rows Hrow _ IH]; [reflexivity|].
  cbn [map]. rewrite select_rows_cons.
  destruct row as [|c row]; [discriminate|].
  cbn [forallb]. rewrite nan_bound_excludes. exact IH.
Qed.

Lemma pass_nan (colorspace : string) (factor : nat) (rgb : matrix) :
  pass colorspace nan seed factor = Ok rgb -> rgb = [].
Proof.
  unfold draw.
  destruct (low_discrepancy 3 (n * factor) seed) as [random|e] eqn:Hr;
    cbn [bind]; [|discriminate].
  destruct (to_rgb lab2rgb luv2rgb G colorspace random) as [raw|e] eqn:Hc;
    cbn [bind]; [|discriminate].
  intros [= <-]. apply validate_rgb_nan.
  exact (to_rgb_triples lab2rgb luv2rgb lab2rgb_triples luv2rgb_triples
           G colorspace random raw Hc
           (low_discrepancy_triples seed _ _ Hr)).
Qed.

Lemma loop_nan (colorspace : string) (fuel : nat) :
  forall rgb factor,
    length rgb < n ->
    loop fuel G n colorspace nan seed rgb factor = None
    \/ exists e, loop fuel G n colorspace nan seed rgb factor
                 = Some (Raise e).
Proof.
  induction fuel as [|fuel IH]; intros rgb factor Hlt;
    cbn [color_random_loop]; apply Nat.ltb_lt in Hlt; rewrite Hlt;
    [now left|].
  destruct (pass colorspace nan seed factor) as [rgb'|e] eqn:Hd;
    [|right; now exists e].
  apply pass_nan in Hd. subst rgb'. apply IH. apply Nat.ltb_lt in Hlt.
  cbn. lia.
Qed.

(** X2. With a NaN tolerance no colour is ever valid: for [n >= 1] the
    call never returns colours. After any number of passes it is still
    looping, unless a pass raised. *)
Theorem color_random_nan_tolerance_never_returns (colorspace : string)
        (fuel : nat) :
  1 <= n ->
  color_random lab2rgb luv2rgb fuel G n colorspace nan seed = None
  \/ exists e, color_random lab2rgb luv2rgb fuel G n colorspace nan seed
               = Some (Raise e).
Proof.
  intros Hn. unfold color_random. apply loop_nan. cbn. lia.
Qed.

End ColorRandomLoop.

(** ** Seeds: when they are checked, and how they broadcast *)

Section Seeds.

Variables lab2rgb luv2rgb : matrix -> matrix.
Variable G : globals.

Lemma broadcast_to_misfit (v : vector) :
  length v <> 3 -> length v <> 1 ->
  broadcast_to (Vector v) 3 = Raise ValueError.
Proof.
  intros H3 H1. unfold broadcast_to. cbn [Z.ltb Z.compare].
  destruct (Z.of_nat (length v) =? 3)%Z eqn:E;
    [apply Z.eqb_eq in E; lia|].
  destruct v as [|s [|? ?]]; cbn in *; congruence.
Qed.

Lemma low_discrepancy_misfit (v : vector) (m : nat) :
  length v <> 3 -> length v <> 1 ->
  low_discrepancy 3 m (Vector v) = Raise ValueError.
Proof.
  intros H3 H1. unfold low_discrepancy.
  now rewrite (broadcast_to_misfit v H3 H1).
Qed.

Lemma color_random_misfit (fuel n : nat) (colorspace : string)
      (tolerance : float) (v : vector) :
  1 <= n -> 1 <= fuel -> length v <> 3 -> length v <> 1 ->
  color_random lab2rgb luv2rgb fuel G n colorspace tolerance (Vector v)
  = Some (Raise ValueError).
Proof.
  intros Hn Hf H3 H1. unfold color_random.
  destruct fuel as [|fuel]; [lia|]. cbn [color_random_loop length].
  replace (0 <? n) with true by (symmetry; apply Nat.ltb_lt; lia).
  unfold draw. now rewrite (low_discrepancy_misfit v _ H3 H1).
Qed.

(** X3. [color_random] looks at the seed only when it draws. Asked for no
    colour it returns an empty array whatever the seed, even one that fits
    no dimension; asked for at least one colour with a seed array whose
    length is neither 3 nor 1, it raises [ValueError] in its first pass,
    in every colorspace. *)
Theorem color_random_checks_seed_when_drawing (fuel : nat)
        (colorspace : string) (tolerance : float) :
  (forall seed,
     color_random lab2rgb luv2rgb fuel G 0 colorspace tolerance seed
     = Some (Ok []))
  /\ (forall n v,
        1 <= n -> 1 <= fuel -> length v <> 3 -> length v <> 1 ->
        color_random lab2rgb luv2rgb fuel G n colorspace tolerance
                     (Vector v)
        = Some (Raise ValueError)).
Proof.
  split.
  - intros seed. unfold color_random. now destruct fuel.
  - intros n v. apply color_random_misfit.
Qed.

(** X4. [label_colormap] raises [ValueError] when asked for no colour
    (from [linspace], before any colour is drawn and whatever the seed), and
    when given a seed array whose length is neither 3 nor 1; in neither case
    does it loop. *)
Theorem label_colormap_raises (fuel : nat) :
  (forall seed,
     label_colormap lab2rgb luv2rgb fuel G 0 seed = Some (Raise ValueError))
  /\ (forall num_colors v,
        1 <= num_colors -> 1 <= fuel -> length v <> 3 -> length v <> 1 ->
        label_colormap lab2rgb luv2rgb fuel G num_colors (Vector v)
        = Some (Raise ValueError)).
Proof.
  split; [reflexivity|].
  intros num_colors v Hn Hf H3 H1. unfold label_colormap.
  destruct (control_points_shape num_colors Hn) as (mid & _ & _ & _ & ->).
  now rewrite (color_random_misfit fuel num_colors "lab" 0 v Hn Hf H3 H1).
Qed.

Lemma broadcast_to_scalar_as_vector (s : float) (dim : Z) :
  broadcast_to (Vector (repeat s (Z.to_nat dim))) dim
  = broadcast_to (Scalar s) dim
  /\ broadcast_to (Vector [s]) dim = broadcast_to (Scalar s) dim.
Proof.
  unfold broadcast_to.
  destruct (dim <? 0)%Z eqn:E; [now split|]. apply Z.ltb_ge in E. split.
  - rewrite repeat_length, Z2Nat.id by lia. now rewrite Z.eqb_refl.
  - cbn [length]. destruct (Z.of_nat 1 =? dim)%Z eqn:E1; [|reflexivity].
    apply Z.eqb_eq in E1. now subst dim.
Qed.

Lemma low_discrepancy_seed_ext (seed seed' : scalar_or_vector) (dim : Z)
      (m : nat) :
  broadcast_to seed dim = broadcast_to seed' dim ->
  low_discrepancy dim m seed = low_discrepancy dim m seed'.
Proof. intros H. unfold low_discrepancy. now rewrite H. Qed.

Lemma loop_seed_ext (seed seed' : scalar_or_vector) (n : nat)
      (colorspace : string) (tolerance : float) (fuel : nat) :
  broadcast_to seed 3 = broadcast_to seed' 3 ->
  forall rgb factor,
    color_random_loop lab2rgb luv2rgb fuel G n colorspace tolerance seed
                      rgb factor
    = color_random_loop lab2rgb luv2rgb fuel G n colorspace tolerance
                        seed' rgb factor.
Proof.
  intros H. induction fuel as [|fuel IH]; intros rgb factor;
    cbn [color_random_loop]; [reflexivity|].
  destruct (length rgb <? n); [|reflexivity].
  unfold draw. rewrite (low_discrepancy_seed_ext seed seed' 3 _ H).
  destruct (low_discrepancy 3 (n * factor) seed') as [random|e];
    cbn [bind]; [|reflexivity].
  destruct (to_rgb lab2rgb luv2rgb G colorspace random); cbn [bind];
    [apply IH | reflexivity].
Qed.

Lemma label_colormap_seed_ext (seed seed' : scalar_or_vector)
      (fuel num_colors : nat) :
  broadcast_to seed 3 = broadcast_to seed' 3 ->
  label_colormap lab2rgb luv2rgb fuel G num_colors seed
  = label_colormap lab2rgb luv2rgb fuel G num_colors seed'.
Proof.
  intros H. unfold label_colormap, color_random.
  now rewrite (loop_seed_ext seed seed' num_colors "lab" 0 fuel H).
Qed.

(** X5. A scalar seed is the seed array that repeats it: the points of
    [low_discrepancy] for the seed [s] are those for [dim] copies of [s] and
    those for the one-element array [[s]], in every dimension; so
    [color_random] and [label_colormap] do for the seed [s] what they do
    for [[s, s, s]]. *)
Theorem scalar_seed_is_repeated_seed (s : float) :
  (forall dim m,
     low_discrepancy dim m (Vector (repeat s (Z.to_nat dim)))
     = low_discrepancy dim m (Scalar s)
     /\ low_discrepancy dim m (Vector [s])
        = low_discrepancy dim m (Scalar s))
  /\ (forall fuel n colorspace tolerance,
        color_random lab2rgb luv2rgb fuel G n colorspace tolerance
                     (Vector [s; s; s])
        = color_random lab2rgb luv2rgb fuel G n colorspace tolerance
                       (Scalar s))
  /\ (forall fuel num_colors,
        label_colormap lab2rgb luv2rgb fuel G num_colors (Vector [s; s; s])
        = label_colormap lab2rgb luv2rgb fuel G num_colors (Scalar s)).
Proof.
  pose proof (proj1 (broadcast_to_scalar_as_vector s 3)) as H3.
  cbn [Z.to_nat Pos.to_nat Pos.iter_op Nat.add repeat] in H3.
  split; [|split].
  - intros dim m.
    destruct (broadcast_to_scalar_as_vector s dim) as [Hr H1].
    split; now apply low_discrepancy_seed_ext.
  - intros fuel n colorspace tolerance. unfold color_random.
    now apply loop_seed_ext.
  - intros fuel num_colors. now apply label_colormap_seed_ext.
Qed.

End Seeds.

(** ** [label_colormap]: the colours *)

Section LabelColormapColors.

Variables lab2rgb luv2rgb : matrix -> matrix.
Hypothesis lab2rgb_triples : forall m, Triples m -> Triples (lab2rgb m).

Variable G : globals.
Variable seed : scalar_or_vector.

Lemma zip_with_repeat {A B C} (f : A -> B -> C) (l : list A) (b : B)
      (n : nat) :
  length l = n -> zip_with f l (repeat b n) = map (fun a => f a b) l.
Proof.
  revert n. induction l as [|a l IH]; intros [|n] H; try discriminate;
    [reflexivity|].
  unfold zip_with in *. cbn. f_equal. apply IH. now injection H.
Qed.

Lemma color_random_lab_unit (fuel n : nat) (rgb : matrix) :
  1 <= n ->
  color_random lab2rgb luv2rgb fuel G n "lab" 0 seed = Some (Ok rgb) ->
  InUnitCube rgb.
Proof.
  intros Hn Hret. unfold color_random in Hret.
  apply loop_returns in Hret
    as [[H0 _] | (_ & k & valid & _ & Hd & _ & -> & _)];
    [cbn in H0; lia|].
  unfold draw in Hd.
  destruct (low_discrepancy 3 (n * (6 * 2 ^ k)) seed) as [random|e];
    cbn [bind] in Hd; [|discriminate].
  destruct (to_rgb lab2rgb luv2rgb G "lab" random) as [raw_rgb|e];
    cbn [bind] in Hd; [|discriminate].
  injection Hd as <-. apply Forall_firstn', validate_rgb_in_unit.
Qed.

(** X6. Every colour of a returned colormap has four channels, each in
    [0, 1]; every colour but the first is the colour [color_random] drew at
    that position followed by the alpha value 1; the interpolation is
    "zero". *)
Theorem label_colormap_colors_are_rgba (fuel num_colors : nat)
        (cmap : Colormap) :
  1 <= num_colors ->
  label_colormap lab2rgb luv2rgb fuel G num_colors seed = Some (Ok cmap) ->
  exists rgb : matrix,
    color_random lab2rgb luv2rgb fuel G num_colors "lab" 0 seed
    = Some (Ok rgb)
    /\ (forall i r, 1 <= i -> nth_error rgb i = Some r ->
                    nth_error (colors cmap) i = Some (r ++ [1%float]))
    /\ Forall (fun row => length row = 4) (colors cmap)
    /\ InUnitCube (colors cmap)
    /\ interpolation cmap = "zero"%string.
Proof.
  intros Hn Hret.
  destruct (label_colormap_returns _ _ _ _ _ _ _ Hn Hret)
    as (points & rgb & first & rest & _ & Hrgb & Hz & ->).
  exists rgb. split; [exact Hrgb|].
  destruct (color_random_lab_shape lab2rgb luv2rgb lab2rgb_triples G seed
              fuel num_colors rgb Hn Hrgb) as [Hlen Htri].
  pose proof (color_random_lab_unit fuel num_colors rgb Hn Hrgb) as Hunit.
  unfold full_column in Hz. rewrite (zip_with_repeat _ _ _ _ Hlen) in Hz.
  destruct rgb as [|r0 rgb]; [discriminate|].
  cbn [map] in Hz. injection Hz as <- <-.
  inversion Htri as [|? ? Hr0 Htri']; subst.
  inversion Hunit as [|? ? Hu0 Hunit']; subst.
  cbn [colors interpolation]. repeat split.
  - intros [|i] r Hi Hr; [lia|]. cbn [nth_error] in *.
    now rewrite nth_error_map, Hr.
  - constructor.
    + now rewrite length_map, length_app, Hr0.
    + apply Forall_map. eapply Forall_impl; [|exact Htri'].
      intros r Hr. cbn beta. rewrite length_app, Hr. reflexivity.
  - constructor.
    + apply Forall_map, Forall_forall. reflexivity.
    + apply Forall_map. eapply Forall_impl; [|exact Hunit'].
      intros r Hr. cbn beta. apply Forall_app. split; [exact Hr|].
      constructor; [reflexivity | constructor].
Qed.

End LabelColormapColors.

(** ** The sequence starts at the seed *)

Section StartsAtSeed.

Lemma add_zero_nonzero (x : float) :
  (forall s, Prim2SF x <> S754_zero s) -> (x + 0)%float = x.
Proof.
  intros Hx. apply Prim2SF_inj. rewrite add_spec.
  change (Prim2SF 0%float) with (S754_zero false).
  unfold SF64add, SFadd.
  destruct (Prim2SF x) as [s| | |s m e]; try reflexivity.
  now elim (Hx s).
Qed.

Lemma mod1_of_zero (x : float) (s : bool) :
  Prim2SF x = S754_zero s -> Float64.mod1 x = 0%float.
Proof.
  intros Hx. unfold Float64.mod1, Float64.fmod1. rewrite Hx.
  rewrite eqb_spec, Hx. reflexivity.
Qed.

Lemma mod1_add_zero (x : float) :
  Float64.mod1 (x + 0)%float = Float64.mod1 x.
Proof.
  destruct (Prim2SF x) as [s| | |s m e] eqn:Hx;
    try (rewrite add_zero_nonzero; [reflexivity|];
         intros s'; rewrite Hx; discriminate).
  rewrite (mod1_of_zero x s Hx).
  assert (Hs : Prim2SF (x + 0)%float = S754_zero false).
  { rewrite add_spec, Hx. now destruct s. }
  exact (mod1_of_zero _ _ Hs).
Qed.

(** X7. In dimension 1, 2 or 3, with a fitting seed and [n >= 1], the
    first point of the sequence is the seed reduced modulo 1: its
    coordinate [d] is [seed_d mod 1]. *)
Theorem low_discrepancy_starts_at_seed (dim n : nat)
        (seed : scalar_or_vector) :
  dim = 1 \/ dim = 2 \/ dim = 3 ->
  seed_fits seed dim ->
  1 <= n ->
  exists (pts : matrix) (p : vector),
    low_discrepancy (Z.of_nat dim) n seed = Ok pts
    /\ nth_error pts 0 = Some p
    /\ length p = dim
    /\ forall d, d < dim ->
         nth_error p d = Some (Float64.mod1 (seed_at seed d)).
Proof.
  intros Hdim Hfit Hn.
  pose proof (broadcast_to_fits seed dim Hfit) as Hb.
  eexists. eexists. split; [|split].
  - apply (low_discrepancy_rows _ _ _ _ Hb).
    destruct Hdim as [-> | [-> | ->]]; destruct seed as [s|v];
      cbn in Hfit |- *; try rewrite Hfit; reflexivity.
  - apply rows_nth. lia.
  - destruct Hdim as [-> | [-> | ->]]; destruct seed as [s|v];
      cbn in Hfit;
      repeat (let x := fresh "x" in destruct v as [|x v];
              try discriminate Hfit);
      (split; [reflexivity|]);
      intros d Hd;
      repeat (destruct d as [|d];
              [cbn [seed_at nth];
               match goal with
               | |- _ = Some (Float64.mod1 ?s) =>
                   rewrite <- (mod1_add_zero s)
               end; reflexivity|]); lia.
Qed.

End StartsAtSeed.

(** ** [_validate_rgb]: what clipping changes *)

Section Clipping.

Lemma ltb_leb (a b : float) :
  (a <? b)%float = true -> (a <=? b)%float = true.
Proof.
  rewrite ltb_spec, leb_spec. unfold SFltb, SFleb.
  now destruct (SFcompare _ _) as [[| |]|].
Qed.

Lemma ltb_asym (a b : float) :
  (a <? b)%float = true -> (b <? a)%float = false.
Proof.
  rewrite !ltb_spec. unfold SFltb.
  destruct (SFcompare (Prim2SF a) (Prim2SF b)) as [c|] eqn:E;
    [|discriminate].
  rewrite (SFcompare_swap _ _ _ E). now destruct c.
Qed.

(** A channel strictly inside (0, 1) is not touched by the clip. *)
Lemma clip01_inside (c : float) :
  (0 <? c)%float = true -> (c <? 1)%float = true -> clip01 c = c.
Proof.
  intros H0 H1. unfold clip01.
  now rewrite (ltb_asym _ _ H0), (ltb_asym _ _ H1).
Qed.

Lemma map_clip01_valid0 (color : vector) :
  Valid 0 color -> map clip01 color = color.
Proof.
  unfold Valid. induction 1 as [|c cs [Hl Hh] _ IH]; [reflexivity|].
  cbn [map]. rewrite IH. f_equal. now apply clip01_inside.
Qed.

Lemma map_clip01_all_valid0 (kept : matrix) :
  Forall (Valid 0) kept -> map (map clip01) kept = kept.
Proof.
  induction 1 as [|c cs Hc _ IH]; [reflexivity|].
  cbn [map]. now rewrite IH, (map_clip01_valid0 c Hc).
Qed.

(** X8. With the default tolerance 0 the function alters no channel: it
    returns, unchanged and in order, exactly the colours whose channels all
    lie strictly between 0 and 1. *)
Theorem validate_rgb_default_tolerance_alters_nothing (colors : matrix) :
  Kept (Valid 0) colors (validate_rgb colors 0).
Proof.
  destruct (validate_rgb_kept 0%float colors) as (kept & K & ->).
  now rewrite (map_clip01_all_valid0 kept (Kept_all _ _ _ K)).
Qed.

End Clipping.

(** ** [_validate_rgb]: validating twice *)

Section ValidateTwice.

Lemma SFcompare_lt_trans (x y z : spec_float) :
  SFcompare x y = Some Lt -> SFcompare y z = Some Lt ->
  SFcompare x z = Some Lt.
Proof.
  destruct x as [sx|sx| |sx mx ex], y as [sy|sy| |sy my ey],
           z as [sz|sz| |sz mz ez]; cbn;
    try discriminate;
    repeat match goal with s : bool |- _ => destruct s end;
    try discriminate; try reflexivity;
    change (Pos.compare_cont Eq) with Pos.compare;
    destruct (Z.compare_spec ex ey), (Z.compare_spec ey ez),
      (Z.compare_spec ex ez); try discriminate; try reflexivity; try lia;
    destruct (Pos.compare_spec mx my), (Pos.compare_spec my mz),
      (Pos.compare_spec mx mz);
    cbn; try discriminate; try reflexivity; try lia.
Qed.

Lemma ltb_trans (a b c : float) :
  (a <? b)%float = true -> (b <? c)%float = true -> (a <? c)%float = true.
Proof.
  rewrite !ltb_spec. unfold SFltb.
  destruct (SFcompare (Prim2SF a) (Prim2SF b)) as [[| |]|] eqn:E1;
    try discriminate.
  destruct (SFcompare (Prim2SF b) (Prim2SF c)) as [[| |]|] eqn:E2;
    try discriminate.
  now rewrite (SFcompare_lt_trans _ _ _ E1 E2).
Qed.

Lemma clip01_fixed (c : float) : clip01 (clip01 c) = clip01 c.
Proof.
  unfold clip01 at 2 3.
  destruct (c <? 0)%float eqn:H0; [reflexivity|].
  destruct (1 <? c)%float eqn:H1; [reflexivity|].
  unfold clip01. now rewrite H0, H1.
Qed.

Variable tolerance : float.
Hypothesis lower_below_one : (0 - tolerance <? 1)%float = true.
Hypothesis upper_above_zero : (0 <? 1 + tolerance)%float = true.

Lemma clip01_stays_valid (color : vector) :
  Valid tolerance color -> Valid tolerance (map clip01 color).
Proof.
  unfold Valid. induction 1 as [|c cs [Hl Hh] _ IH]; cbn [map];
    constructor; [|exact IH].
  unfold clip01.
  destruct (c <? 0)%float eqn:H0;
    [split; [exact (ltb_trans _ _ _ Hl H0) | exact upper_above_zero]|].
  destruct (1 <? c)%float eqn:H1;
    [split; [exact lower_below_one | exact (ltb_trans _ _ _ H1 Hh)]|].
  now split.
Qed.

Lemma validate_rgb_all_valid (colors : matrix) :
  Forall (Valid tolerance) colors ->
  validate_rgb colors tolerance = map (map clip01) colors.
Proof.
  intros H. unfold validate_rgb. f_equal.
  induction H as [|c cs Hc _ IH]; [reflexivity|].
  cbn [map]. rewrite select_rows_cons.
  apply valid_mask_true in Hc. cbv zeta in Hc. rewrite Hc.
  now rewrite IH.
Qed.

(** X9. Validating an array that was already validated with the same
    tolerance changes nothing, for every tolerance whose bounds satisfy
    [0 - tolerance < 1] and [0 < 1 + tolerance]. *)
Theorem validate_rgb_twice (colors : matrix) :
  validate_rgb (validate_rgb colors tolerance) tolerance
  = validate_rgb colors tolerance.
Proof.
  destruct (validate_rgb_kept tolerance colors) as (kept & K & ->).
  pose proof (Kept_all _ _ _ K) as V.
  rewrite validate_rgb_all_valid.
  - rewrite map_map. apply map_ext. intros row.
    rewrite map_map. apply map_ext. apply clip01_fixed.
  - apply Forall_map. eapply Forall_impl; [|exact V].
    apply clip01_stays_valid.
Qed.

End ValidateTwice.

(** * Properties of [Labels._slice_image] *)

Section SliceImage.

Import LabelsLayer.

Lemma list_set_middle {A} (pre : list A) (x v : A) (l : list A) :
  list_set (pre ++ x :: l) (length pre) v = pre ++ v :: l.
Proof. induction pre as [|p pre IH]; cbn; [reflexivity | now rewrite IH]. Qed.

Lemma nth_error_middle {A} (pre : list A) (x : A) (l : list A) :
  nth_error (pre ++ x :: l) (length pre) = Some x.
Proof. induction pre as [|p pre IH]; cbn; [reflexivity | exact IH]. Qed.

Lemma skipn_nth_error {A} (l : list A) (k : nat) (x : A) :
  nth_error l k = Some x -> skipn k l = x :: skipn (S k) l.
Proof.
  revert k. induction l as [|a l IH]; intros [|k] H; try discriminate.
  - now injection H as ->.
  - cbn in H |- *. now apply IH.
Qed.

Lemma clamp_step_middle (shape : list Z) (pre : list index) (x : index)
      (l : list index) (size : Z) :
  nth_error shape (length pre) = Some size ->
  clamp_step shape (pre ++ x :: l) (length pre)
  = Ok (pre ++ clamped x size :: l).
Proof.
  intros Hs. unfold clamp_step. rewrite Hs, nth_error_middle.
  destruct x as [i|a b c]; [|reflexivity]. cbn [clamped].
  destruct (size - 1 <? i)%Z eqn:E.
  - rewrite list_set_middle. apply Z.ltb_lt in E.
    now rewrite Z.min_r by lia.
  - apply Z.ltb_ge in E. now rewrite Z.min_l by lia.
Qed.

Lemma clamp_loop_from (shape : list Z) (l : list index) :
  forall pre,
    length pre + length l <= length shape ->
    clamp_loop shape (pre ++ l) (seq (length pre) (length l))
    = Ok (pre ++ zip_with clamped l (skipn (length pre) shape)).
Proof.
  induction l as [|x l IH]; intros pre Hlen.
  - cbn. now rewrite app_nil_r.
  - cbn [length seq clamp_loop].
    destruct (nth_error shape (length pre)) as [size|] eqn:Hs;
      [|apply nth_error_None in Hs; cbn in Hlen; lia].
    rewrite (clamp_step_middle _ _ _ _ _ Hs). cbn [bind].
    specialize (IH (pre ++ [clamped x size])).
    rewrite length_app, <- app_assoc in IH. cbn [length app] in IH.
    rewrite Nat.add_1_r in IH. rewrite IH by (cbn in Hlen; lia).
    rewrite (skipn_nth_error _ _ _ Hs). rewrite <- app_assoc.
    reflexivity.
Qed.

Lemma clamp_loop_short (shape : list Z) (l : list index) :
  forall pre,
    length shape < length pre + length l ->
    length pre <= length shape ->
    clamp_loop shape (pre ++ l) (seq (length pre) (length l))
    = Raise IndexError.
Proof.
  induction l as [|x l IH]; intros pre Hlen Hpre; [cbn in Hlen; lia|].
  cbn [length seq clamp_loop].
  destruct (nth_error shape (length pre)) as [size|] eqn:Hs.
  - rewrite (clamp_step_middle _ _ _ _ _ Hs). cbn [bind].
    assert (Hlt : length pre < length shape)
      by (apply nth_error_Some; congruence).
    specialize (IH (pre ++ [clamped x size])).
    rewrite length_app, <- app_assoc in IH. cbn [length app] in IH.
    rewrite Nat.add_1_r in IH. apply IH; cbn in Hlen; lia.
  - unfold clamp_step. now rewrite Hs.
Qed.

Variable ndim : nat.
Variable shape : list Z.

Lemma slice_indices_clamped (indices : list index) :
  Nat.min ndim (length indices) <= length shape ->
  slice_indices ndim shape indices
  = Ok (zip_with clamped (firstn ndim indices) shape).
Proof.
  intros H. unfold slice_indices.
  rewrite <- length_firstn in H.
  exact (clamp_loop_from shape (firstn ndim indices) [] H).
Qed.

Lemma nth_error_zip_with {A B C} (f : A -> B -> C) (l : list A)
      (m : list B) (k : nat) (a : A) (b : B) :
  nth_error l k = Some a -> nth_error m k = Some b ->
  nth_error (zip_with f l m) k = Some (f a b).
Proof.
  revert m k. induction l as [|x l IH]; intros [|y m] [|k] Ha Hb;
    try discriminate.
  - injection Ha as ->. now injection Hb as ->.
  - cbn in Ha, Hb. unfold zip_with in *. cbn. now apply IH.
Qed.

(** X10. When the image has at least as many axes as indices are used,
    [_slice_image] hands numpy the first [ndim] of the given indices, each
    integer index beyond the end of its axis brought back to the last
    position of the axis and every other index, slices and negative
    integers included, as given. *)
Theorem slice_indices_clamps_upper (indices : list index) :
  Nat.min ndim (length indices) <= length shape ->
  exists out : list index,
    slice_indices ndim shape indices = Ok out
    /\ length out = Nat.min ndim (length indices)
    /\ forall d idx size,
         d < ndim -> nth_error indices d = Some idx ->
         nth_error shape d = Some size ->
         nth_error out d = Some (clamped idx size)
         /\ match idx with
            | Int i => clamped idx size
                       = Int (if (size - 1 <? i)%Z then size - 1 else i)
            | Slice _ _ _ => clamped idx size = idx
            end.
Proof.
  intros H. eexists. split; [exact (slice_indices_clamped indices H)|].
  split.
  - unfold zip_with. rewrite length_map, length_combine, length_firstn.
    lia.
  - intros d idx size Hd Hidx Hsize. split.
    + apply nth_error_zip_with; [|exact Hsize].
      now rewrite nth_error_firstn, (proj2 (Nat.ltb_lt d ndim) Hd).
    + destruct idx as [i|a b c]; [|reflexivity]. cbn [clamped].
      destruct (size - 1 <? i)%Z eqn:E; f_equal.
      * apply Z.ltb_lt in E. lia.
      * apply Z.ltb_ge in E. lia.
Qed.


Lemma list_set_length {A} (l : list A) (k : nat) (v : A) :
  length (list_set l k v) = length l.
Proof.
  revert k. induction l as [|x l IH]; intros [|k]; cbn; auto.
Qed.

Lemma clamped_set_same (indices : list index) :
  forall d m sh i size,
    nth_error indices d = Some (Int i) ->
    nth_error sh d = Some size ->
    (size - 1 <= i)%Z ->
    zip_with clamped (firstn m (list_set indices d (Int (size - 1)))) sh
    = zip_with clamped (firstn m indices) sh.
Proof.
  induction indices as [|x l IH]; intros [|d] [|m] [|s sh] i size Hi Hs Hle;
    try discriminate; try reflexivity.
  - cbn in Hi, Hs. injection Hi as ->. injection Hs as ->.
    unfold zip_with. cbn. f_equal. f_equal. lia.
  - cbn in Hi, Hs. unfold zip_with in *. cbn. f_equal.
    exact (IH d m sh i size Hi Hs Hle).
Qed.

Lemma slice_indices_short (indices : list index) :
  length shape < Nat.min ndim (length indices) ->
  slice_indices ndim shape indices = Raise IndexError.
Proof.
  intros H. unfold slice_indices. rewrite <- length_firstn in H.
  apply (clamp_loop_short shape (firstn ndim indices) []); cbn; lia.
Qed.

Variables image_t value_t : Type.
Variable getitem : image_t -> list index -> result value_t.
Variable self_image : image_t.

Local Abbreviation slice_image :=
  (LabelsLayer.slice_image image_t value_t getitem self_image ndim shape).

(** X11. Which indices matter to [_slice_image]. An integer index at or
    beyond the last position of its axis reads what the last position
    reads; indices after the first [ndim] are ignored; and without an
    [image] argument the layer's own image is read. *)
Theorem slice_image_reads_last_position (indices : list index)
        (image : option image_t) :
  (forall d i size,
     nth_error indices d = Some (Int i) ->
     nth_error shape d = Some size ->
     (size - 1 <= i)%Z ->
     slice_image indices image
     = slice_image (list_set indices d (Int (size - 1))) image)
  /\ (forall extra,
        ndim <= length indices ->
        slice_image (indices ++ extra) image = slice_image indices image)
  /\ slice_image indices None = slice_image indices (Some self_image).
Proof.
  split; [|split].
  - intros d i size Hi Hs Hle. unfold LabelsLayer.slice_image. f_equal.
    destruct (Nat.le_gt_cases (Nat.min ndim (length indices))
                              (length shape)) as [H|H].
    + rewrite !slice_indices_clamped;
        rewrite ?list_set_length; auto.
      now rewrite (clamped_set_same indices d ndim shape i size Hi Hs Hle).
    + rewrite !slice_indices_short; rewrite ?list_set_length; auto.
  - intros extra Hn. unfold LabelsLayer.slice_image, slice_indices.
    rewrite firstn_app.
    replace (ndim - length indices) with 0 by lia.
    cbn [firstn]. now rewrite app_nil_r.
  - reflexivity.
Qed.

End SliceImage.

(** * Properties of [_all_rgb] *)

Section AllRgb.

Import AllRgb.

Lemma zip_with_map_same {A B C D} (f : B -> C -> D) (p : A -> B)
      (q : A -> C) (l : list A) :
  zip_with f (map p l) (map q l) = map (fun a => f (p a) (q a)) l.
Proof.
  unfold zip_with. induction l as [|a l IH]; cbn; [reflexivity|].
  now rewrite IH.
Qed.

Lemma zip_with3_map_same {A B C D E} (f : B -> C -> D -> E) (p : A -> B)
      (q : A -> C) (r : A -> D) (l : list A) :
  zip_with3 f (map p l) (map q l) (map r l)
  = map (fun a => f (p a) (q a) (r a)) l.
Proof.
  unfold zip_with3, zip_with. induction l as [|a l IH]; cbn; [reflexivity|].
  now rewrite IH.
Qed.

(** The reshaped stack is the nested enumeration of the three axes, the
    last axis varying fastest. *)
Lemma all_tuples_flat_map {A} (x y z : list A) :
  all_tuples x y z
  = flat_map (fun a => flat_map (fun b => map (fun c => [a; b; c]) z) y) x.
Proof.
  unfold all_tuples, meshgrid_ij, stack_last, reshape_rows.
  rewrite zip_with3_map_same, map_map, flat_map_concat_map.
  f_equal. apply map_ext. intros a.
  rewrite zip_with3_map_same, flat_map_concat_map.
  f_equal. apply map_ext. intros b.
  now rewrite zip_with3_map_same.
Qed.

Lemma flat_map_uniform_length {A B} (f : A -> list B) (m : nat)
      (l : list A) :
  (forall a, In a l -> length (f a) = m) ->
  length (flat_map f l) = length l * m.
Proof.
  induction l as [|a l IH]; intros H; [reflexivity|].
  cbn [flat_map length]. rewrite length_app, H by now left.
  rewrite IH by (intros a' Ha; apply H; now right). lia.
Qed.

Lemma nth_error_flat_map_uniform {A B} (f : A -> list B) (m : nat)
      (l : list A) :
  (forall a, In a l -> length (f a) = m) ->
  forall i j a,
    nth_error l i = Some a -> j < m ->
    nth_error (flat_map f l) (i * m + j) = nth_error (f a) j.
Proof.
  induction l as [|a0 l IH]; intros H [|i] j a Hi Hj; try discriminate.
  - injection Hi as ->. cbn [flat_map Nat.mul Nat.add].
    apply nth_error_app1. rewrite H by now left. exact Hj.
  - cbn [flat_map]. cbn in Hi.
    rewrite nth_error_app2; rewrite (H a0) by now left.
    + replace (S i * m + j - m) with (i * m + j) by lia.
      apply IH; auto. intros a' Ha. apply H. now right.
    + lia.
Qed.

Lemma NoDup_flat_map {A B} (f : A -> list B) (l : list A) :
  NoDup l ->
  (forall a, In a l -> NoDup (f a)) ->
  (forall a a' b, In a l -> In a' l -> In b (f a) -> In b (f a') ->
                  a = a') ->
  NoDup (flat_map f l).
Proof.
  induction 1 as [|a l Hnotin Hnd IH]; intros Hf Hinj; [constructor|].
  cbn [flat_map]. apply NoDup_app.
  - apply Hf. now left.
  - apply IH.
    + intros a' Ha'. apply Hf. now right.
    + intros a1 a2 b H1 H2. apply Hinj; now right.
  - intros b Hb Hb'. apply in_flat_map in Hb' as (a' & Ha' & Hb').
    assert (a = a') by (apply (Hinj a a' b); auto; [now left | now right]).
    now subst a'.
Qed.

Lemma NoDup_map_injective {A B} (f : A -> B) (l : list A) :
  (forall a a', f a = f a' -> a = a') -> NoDup l -> NoDup (map f l).
Proof.
  intros Hinj. induction 1 as [|a l Hnotin _ IH]; cbn; constructor; auto.
  intros Hin. apply in_map_iff in Hin as (a' & E & Ha').
  apply Hinj in E. now subst a'.
Qed.

Section Axes.

Context {A : Type}.
Variables x y z : list A.

Lemma plane_length (a : A) :
  length (flat_map (fun b => map (fun c => [a; b; c]) z) y)
  = length y * length z.
Proof.
  apply flat_map_uniform_length. intros b _. apply length_map.
Qed.

Lemma all_tuples_length :
  length (all_tuples x y z) = length x * (length y * length z).
Proof.
  rewrite all_tuples_flat_map. apply flat_map_uniform_length.
  intros a _. apply plane_length.
Qed.

Lemma all_tuples_in (row : list A) :
  In row (all_tuples x y z)
  <-> exists a b c, In a x /\ In b y /\ In c z /\ row = [a; b; c].
Proof.
  rewrite all_tuples_flat_map, in_flat_map. split.
  - intros (a & Ha & H). apply in_flat_map in H as (b & Hb & H).
    apply in_map_iff in H as (c & <- & Hc). now exists a, b, c.
  - intros (a & b & c & Ha & Hb & Hc & ->). exists a. split; [exact Ha|].
    apply in_flat_map. exists b. split; [exact Hb|].
    apply in_map_iff. now exists c.
Qed.

Lemma all_tuples_nth (i j k : nat) (a b c : A) :
  nth_error x i = Some a -> nth_error y j = Some b ->
  nth_error z k = Some c ->
  nth_error (all_tuples x y z)
            (i * (length y * length z) + (j * length z + k))
  = Some [a; b; c].
Proof.
  intros Ha Hb Hc. rewrite all_tuples_flat_map.
  assert (Hk : k < length z) by (apply nth_error_Some; congruence).
  assert (Hj : j < length y) by (apply nth_error_Some; congruence).
  rewrite (nth_error_flat_map_uniform _ (length y * length z) x
             (fun a' _ => plane_length a') i _ a Ha) by nia.
  rewrite (nth_error_flat_map_uniform _ (length z) y
             (fun b' _ => length_map _ z) j _ b Hb Hk).
  now rewrite nth_error_map, Hc.
Qed.

Lemma all_tuples_NoDup :
  NoDup x -> NoDup y -> NoDup z -> NoDup (all_tuples x y z).
Proof.
  intros Hx Hy Hz. rewrite all_tuples_flat_map.
  apply NoDup_flat_map; [exact Hx| |].
  - intros a _. apply NoDup_flat_map; [exact Hy| |].
    + intros b _. apply NoDup_map_injective; [|exact Hz]. congruence.
    + intros b b' row _ _ H1 H2.
      apply in_map_iff in H1 as (c & <- & _).
      apply in_map_iff in H2 as (c' & E & _). congruence.
  - intros a a' row _ _ H1 H2.
    apply in_flat_map in H1 as (b & _ & H1).
    apply in_map_iff in H1 as (c & <- & _).
    apply in_flat_map in H2 as (b' & _ & H2).
    apply in_map_iff in H2 as (c' & E & _). congruence.
Qed.

End Axes.

Lemma arange_in (n : nat) (v : Z) :
  In v (arange n) <-> (0 <= v < Z.of_nat n)%Z.
Proof.
  unfold arange. rewrite in_map_iff. split.
  - intros (i & <- & Hi). apply in_seq in Hi. lia.
  - intros Hv. exists (Z.to_nat v). split; [lia|]. apply in_seq. lia.
Qed.

Lemma arange_nth (n i : nat) :
  i < n -> nth_error (arange n) i = Some (Z.of_nat i).
Proof.
  intros Hi. unfold arange. rewrite nth_error_map.
  rewrite nth_error_nth' with (d := 0) by now rewrite length_seq.
  now rewrite seq_nth.
Qed.

Lemma arange_NoDup (n : nat) : NoDup (arange n).
Proof.
  unfold arange. apply NoDup_map_injective; [lia | apply seq_NoDup].
Qed.

Lemma arange_length (n : nat) : length (arange n) = n.
Proof. unfold arange. now rewrite length_map, length_seq. Qed.

(** X12. [_all_rgb] lists every RGB triple with channels 0 .. 255 exactly
    once: it has 256^3 rows without repetition, its rows are exactly those
    triples, and the triple (r, g, b) is row r * 256^2 + g * 256 + b. *)
Theorem all_rgb_enumerates_triples :
  length all_rgb = 256 * (256 * 256)
  /\ NoDup all_rgb
  /\ (forall row,
        In row all_rgb
        <-> exists r g b,
              (0 <= r < 256)%Z /\ (0 <= g < 256)%Z /\ (0 <= b < 256)%Z
              /\ row = [r; g; b])
  /\ (forall r g b,
        r < 256 -> g < 256 -> b < 256 ->
        nth_error all_rgb (r * (256 * 256) + (g * 256 + b))
        = Some [Z.of_nat r; Z.of_nat g; Z.of_nat b]).
Proof.
  unfold all_rgb. split; [|split; [|split]].
  - now rewrite all_tuples_length, !arange_length.
  - apply all_tuples_NoDup; apply arange_NoDup.
  - intros row. rewrite all_tuples_in. split.
    + intros (r & g & b & Hr & Hg & Hb & ->).
      apply arange_in in Hr, Hg, Hb. now exists r, g, b.
    + intros (r & g & b & Hr & Hg & Hb & ->).
      exists r, g, b. repeat split; try apply arange_in; auto.
  - intros r g b Hr Hg Hb.
    pose proof (all_tuples_nth (arange 256) (arange 256) (arange 256)
                  r g b _ _ _ (arange_nth 256 r Hr) (arange_nth 256 g Hg)
                  (arange_nth 256 b Hb)) as H.
    now rewrite !arange_length in H.
Qed.

End AllRgb.

(** * Properties of [str.replace] and of build_icons.py *)

Section Replace.

Import PyString.
Local Open Scope string_scope.

Lemma prefix_cons (a c : Ascii.ascii) (w s : string) :
  String.prefix (String a w) (String c s) = true <->
  a = c /\ String.prefix w s = true.
Proof.
  cbn. destruct (Ascii.ascii_dec a c) as [->|N]; split;
    try tauto; try discriminate.
Qed.

Lemma has_char_cons (c a : Ascii.ascii) (s : string) :
  has_char c (String a s) = false <-> c <> a /\ has_char c s = false.
Proof.
  cbn. rewrite orb_false_iff. now rewrite Ascii.eqb_neq.
Qed.

Lemma contains_cons (c : Ascii.ascii) (s w : string) :
  contains (String c s) w = false <->
  String.prefix w (String c s) = false /\ contains s w = false.
Proof. cbn [contains]. now rewrite orb_false_iff. Qed.

Variables old new : string.

(** A word that lacks the first character of [new] starts the output only
    where it starts the input. *)
Lemma prefix_replace_from (n0 : Ascii.ascii) (new' : string) :
  new = String n0 new' ->
  forall w s,
    has_char n0 w = false ->
    String.prefix w (replace_from old new 0 s) = true ->
    String.prefix w s = true.
Proof.
  intros Hnew. induction w as [|a w IH]; intros s Hw H;
    [now destruct s|].
  apply has_char_cons in Hw as [Hna Hw].
  destruct s as [|c s]; [discriminate|].
  cbn [replace_from] in H.
  destruct (String.prefix old (String c s)).
  - rewrite Hnew in H. cbn [append] in H.
    apply prefix_cons in H as [E _]. congruence.
  - apply prefix_cons in H as [-> H]. apply prefix_cons.
    split; [reflexivity|]. now apply IH.
Qed.

Lemma contains_app_new (w0 : Ascii.ascii) (w' r : string) :
  forall text,
    has_char w0 text = false ->
    contains r (String w0 w') = false ->
    contains (text ++ r) (String w0 w') = false.
Proof.
  induction text as [|t text IH]; intros Ht Hr; [exact Hr|].
  apply has_char_cons in Ht as [Hn Ht]. cbn [append].
  apply contains_cons. split; [|now apply IH].
  destruct (String.prefix (String w0 w') (String t (text ++ r))) eqn:E;
    [|reflexivity].
  apply prefix_cons in E as [E _]. contradiction.
Qed.

(** Replacing keeps a text free of a word [w], when [w] lacks the first
    character of [new] and [new] lacks the first character of [w]. *)
Lemma replace_from_keeps_free (n0 w0 : Ascii.ascii) (new' w' : string) :
  new = String n0 new' ->
  has_char n0 (String w0 w') = false ->
  has_char w0 new = false ->
  forall s skip,
    contains s (String w0 w') = false ->
    contains (replace_from old new skip s) (String w0 w') = false.
Proof.
  intros Hnew Hn Hw. induction s as [|c s IH]; intros skip Hs;
    [reflexivity|].
  apply contains_cons in Hs as [Hp Hs].
  cbn [replace_from]. destruct skip as [|k]; [|now apply IH].
  destruct (String.prefix old (String c s)) eqn:E.
  - apply contains_app_new; [exact Hw | now apply IH].
  - apply contains_cons. split; [|now apply IH].
    destruct (String.prefix (String w0 w')
                            (String c (replace_from old new 0 s))) eqn:E';
      [|reflexivity].
    assert (H : String.prefix (String w0 w')
                              (replace_from old new 0 (String c s)) = true)
      by (cbn [replace_from]; now rewrite E).
    apply (prefix_replace_from n0 new' Hnew) in H; [congruence | exact Hn].
Qed.

(** A text in which [old] does not occur is left as it is. *)
Lemma replace_from_free (s : string) :
  contains s old = false -> replace_from old new 0 s = s.
Proof.
  induction s as [|c s IH]; intros H; [reflexivity|].
  apply contains_cons in H as [Hp Hs].
  cbn [replace_from]. rewrite Hp. now rewrite IH.
Qed.

End Replace.

Section ReplaceRemoves.

Import PyString.
Local Open Scope string_scope.

(** After replacing, [old] occurs nowhere, when [old] lacks the first
    character of [new] and [new] lacks the first character of [old]. *)
Lemma replace_from_removes (n0 o0 : Ascii.ascii) (new' old' : string) :
  has_char n0 (String o0 old') = false ->
  has_char o0 (String n0 new') = false ->
  forall s skip,
    contains (replace_from (String o0 old') (String n0 new') skip s)
             (String o0 old') = false.
Proof.
  intros Hn Ho. induction s as [|c s IH]; intros skip; [reflexivity|].
  cbn [replace_from]. destruct skip as [|k]; [|apply IH].
  destruct (String.prefix (String o0 old') (String c s)) eqn:E.
  - apply contains_app_new; [exact Ho | apply IH].
  - apply contains_cons. split; [|apply IH].
    destruct (String.prefix
                (String o0 old')
                (String c (replace_from (String o0 old') (String n0 new')
                                        0 s))) eqn:E'; [|reflexivity].
    assert (H : String.prefix
                  (String o0 old')
                  (replace_from (String o0 old') (String n0 new') 0
                                (String c s)) = true)
      by (cbn [replace_from]; now rewrite E).
    apply (prefix_replace_from _ _ n0 new' eq_refl) in H;
      [congruence | exact Hn].
Qed.

End ReplaceRemoves.

Section BuildIcons.

Import Ascii PyString BuildIcons.
Local Open Scope string_scope.

(** X13. The text [build_pyqt_resources] writes back mentions neither
    "PySide2" nor "PyQt5", whatever the generated file contained; a text
    that mentions neither is written back unchanged. *)
Theorem qtpy_imports_names_no_binding (data : string) :
  contains (qtpy_imports data) "PySide2" = false
  /\ contains (qtpy_imports data) "PyQt5" = false
  /\ (contains data "PySide2" = false -> contains data "PyQt5" = false ->
      qtpy_imports data = data).
Proof.
  unfold qtpy_imports, replace. split; [|split].
  - apply (replace_from_keeps_free "PyQt5" "qtpy" "q"%char "P"%char "tpy"
                                   "ySide2");
      try reflexivity.
    apply (replace_from_removes "q"%char "P"%char "tpy" "ySide2");
      reflexivity.
  - apply (replace_from_removes "q"%char "P"%char "tpy" "yQt5");
      reflexivity.
  - intros H1 H2. rewrite (replace_from_free "PySide2" "qtpy" data H1).
    exact (replace_from_free "PyQt5" "qtpy" data H2).
Qed.

Lemma append_empty (s : string) : s ++ "" = s.
Proof. induction s as [|c s IH]; cbn; [reflexivity | now rewrite IH]. Qed.

Lemma endswith_app (suffix : string) :
  forall s, endswith s suffix = true -> exists stem, s = stem ++ suffix.
Proof.
  induction s as [|c s IH]; cbn [endswith]; intros H;
    apply orb_prop in H as [H|H].
  - apply String.eqb_eq in H. subst. now exists "".
  - discriminate.
  - apply String.eqb_eq in H. subst. now exists "".
  - destruct (IH H) as (stem & ->). now exists (String c stem).
Qed.

Lemma app_endswith (suffix : string) :
  forall stem, endswith (stem ++ suffix) suffix = true.
Proof.
  induction stem as [|c stem IH].
  - cbn [append]. destruct suffix; cbn [endswith];
      now rewrite String.eqb_refl.
  - cbn [append endswith]. rewrite IH. apply orb_true_r.
Qed.

(** ".svg" cannot start inside a stem and end inside the ".svg" that
    follows it: its "." occurs only at its start. *)
Lemma svg_not_straddling (c : Ascii.ascii) (stem : string) :
  String.prefix ".svg" (String c stem) = false ->
  String.prefix ".svg" (String c stem ++ ".svg") = false.
Proof.
  destruct stem as [|c1 [|c2 [|c3 t]]]; cbn [String.prefix append];
    repeat match goal with
           | |- context [Ascii.ascii_dec ?a ?b] =>
               destruct (Ascii.ascii_dec a b); try subst; try discriminate
           end; auto.
  intros H. destruct t; discriminate.
Qed.

Lemma replace_from_svg_ending (new : string) :
  forall stem,
    contains stem ".svg" = false ->
    replace_from ".svg" new 0 (stem ++ ".svg") = stem ++ new.
Proof.
  induction stem as [|c stem IH]; intros H.
  - cbn. now rewrite append_empty.
  - apply contains_cons in H as [Hp Hs].
    change (String c stem ++ ".svg") with (String c (stem ++ ".svg")).
    cbn [replace_from].
    change (String c (stem ++ ".svg")) with (String c stem ++ ".svg").
    rewrite (svg_not_straddling c stem Hp). cbn [append].
    now rewrite IH.
Qed.

Lemma length_append (a b : string) :
  String.length (a ++ b) = String.length a + String.length b.
Proof. induction a as [|c a IH]; cbn; [reflexivity | now rewrite IH]. Qed.

Lemma append_inv_tail (suffix : string) :
  forall a b, a ++ suffix = b ++ suffix -> a = b.
Proof.
  induction a as [|c a IH]; intros [|d b] H; [reflexivity| | |].
  - apply (f_equal String.length) in H.
    change (String d b ++ suffix) with (String d (b ++ suffix)) in H.
    cbn [append String.length] in H. rewrite length_append in H. lia.
  - apply (f_equal String.length) in H.
    change (String c a ++ suffix) with (String c (a ++ suffix)) in H.
    cbn [append String.length] in H. rewrite length_append in H. lia.
  - cbn [append] in H. injection H as -> H. f_equal. now apply IH.
Qed.

(** X14. When ".svg" occurs in every listed name only as its ending, the
    files [themify_icons] reads and writes are exactly the listed names
    that end in ".svg", in the order of the listing. *)
Theorem icon_files_are_listed_svg_files (listing : list string) :
  (forall stem, In (stem ++ ".svg") listing ->
                contains stem ".svg" = false) ->
  map svg_name (icon_names listing)
  = filter (fun i => endswith i ".svg") listing.
Proof.
  unfold icon_names. induction listing as [|name listing IH]; intros H;
    [reflexivity|].
  cbn [filter]. destruct (endswith name ".svg") eqn:E.
  - cbn [map]. rewrite IH by (intros stem Hin; apply H; now right).
    f_equal. destruct (endswith_app ".svg" name E) as (stem & ->).
    unfold replace, svg_name.
    rewrite replace_from_svg_ending by (apply H; now left).
    now rewrite append_empty.
  - apply IH. intros stem Hin. apply H. now right.
Qed.

Section Rcc.

Variable which : string -> string -> option string.
Variable check_call : list string -> option exception.
Variables python_dir env_path scripts_dir pathsep : string.
Variable nt : bool.
Variables out_path qrc_path : string.

Local Abbreviation run_each := (run_each check_call out_path qrc_path).
Local Abbreviation failed name :=
  (check_call [name; "-o"; out_path; qrc_path] = Some SubprocessError).

Lemma run_each_converted (names : list string) (name : string) :
  run_each names = Converted name ->
  exists earlier later,
    names = (earlier ++ name :: later)%list
    /\ Forall (fun e => failed e) earlier
    /\ check_call [name; "-o"; out_path; qrc_path] = None.
Proof.
  induction names as [|n names IH]; cbn [BuildIcons.run_each];
    [discriminate|].
  destruct (check_call [n; "-o"; out_path; qrc_path]) as [[| |other]|] eqn:E;
    try discriminate.
  - intros H. destruct (IH H) as (earlier & later & -> & Hf & Hc).
    exists (n :: earlier), later. repeat split; auto.
  - intros [= <-]. exists [], names. repeat split; auto.
Qed.

Lemma run_each_all_failed (names : list string) :
  Forall (fun e => failed e) names ->
  run_each names = Raised FileNotFoundError.
Proof.
  induction 1 as [|n names Hn _ IH]; cbn [BuildIcons.run_each];
    [reflexivity|].
  now rewrite Hn.
Qed.

Lemma find_rcc_found (name : string) :
  In name (find_rcc_or_raise which python_dir env_path scripts_dir pathsep
                             nt) ->
  name <> ""
  /\ exists bin_name,
       (bin_name = "pyrcc5" \/ bin_name = "pyside2-rcc")
       /\ which bin_name
                (search_path python_dir env_path scripts_dir pathsep nt)
          = Some name.
Proof.
  unfold find_rcc_or_raise. intros H.
  apply in_flat_map in H as (bin_name & Hb & H).
  assert (Hbin : bin_name = "pyrcc5" \/ bin_name = "pyside2-rcc")
    by (cbn in Hb; intuition).
  destruct (which bin_name _) as [[|c s]|] eqn:E; cbn in H;
    try contradiction.
  destruct H as [<-|[]]. split; [discriminate|]. now exists bin_name.
Qed.

(** X15. The loop over [_find_rcc_or_raise]: the command used is an
    executable that [shutil.which] found for "pyrcc5" or "pyside2-rcc", its
    call succeeded, and every candidate tried before it, in that order,
    failed with [SubprocessError]; and when every candidate found fails
    with [SubprocessError], even though executables were found, or when
    none is found, the loop ends in [FileNotFoundError]. *)
Theorem rcc_conversion_first_success :
  let names :=
    find_rcc_or_raise which python_dir env_path scripts_dir pathsep nt in
  let outcome :=
    convert which check_call python_dir env_path scripts_dir pathsep nt
            out_path qrc_path in
  (forall name,
     outcome = Converted name ->
     check_call [name; "-o"; out_path; qrc_path] = None
     /\ name <> ""
     /\ (exists bin_name,
           (bin_name = "pyrcc5" \/ bin_name = "pyside2-rcc")
           /\ which bin_name
                    (search_path python_dir env_path scripts_dir pathsep nt)
              = Some name)
     /\ exists earlier later,
          names = (earlier ++ name :: later)%list
          /\ Forall (fun e => failed e) earlier)
  /\ (Forall (fun e => failed e) names ->
      outcome = Raised FileNotFoundError).
Proof.
  cbv zeta. unfold convert. split.
  - intros name H.
    destruct (run_each_converted _ _ H) as (earlier & later & E & Hf & Hc).
    split; [exact Hc|].
    assert (Hin : In name
                     (find_rcc_or_raise which python_dir env_path
                                        scripts_dir pathsep nt))
      by (rewrite E; apply in_or_app; right; now left).
    destruct (find_rcc_found name Hin) as [Hne Hw].
    split; [exact Hne|]. split; [exact Hw|].
    now exists earlier, later.
  - apply run_each_all_failed.
Qed.

End Rcc.

End BuildIcons.

(** * Properties of qt_octree_info.py *)

Section Octree.

Import PyString OctreeInfo.
Local Open Scope string_scope.

(** X16. The combo box has one entry per octree level after the entry
    "AUTO": the entry at the index of a level shows the number of that
    level, and the index of a level leads back to the level. Choosing the
    entry at an index assigns to the layer what makes [set_layout] select
    that index again. *)
Theorem combo_index_and_level_agree (num_levels : Z) :
  length (combo_items num_levels) = S (Z.to_nat num_levels)
  /\ nth_error (combo_items num_levels) (Z.to_nat AUTO_INDEX) = Some "AUTO"
  /\ (forall level,
        (0 <= level < num_levels)%Z ->
        nth_error (combo_items num_levels) (Z.to_nat (level_to_index level))
        = Some (str level)
        /\ index_to_level (level_to_index level) = level
        /\ level_to_index level <> AUTO_INDEX)
  /\ (forall value l,
        layout_index (set_level value l) = value
        /\ (value <> AUTO_INDEX ->
            auto_level (set_level value l) = false
            /\ octree_level (set_level value l) = index_to_level value)
        /\ (value = AUTO_INDEX ->
            auto_level (set_level value l) = true
            /\ octree_level (set_level value l) = octree_level l)).
Proof.
  unfold combo_items, levels, level_to_index, index_to_level, AUTO_INDEX.
  split; [|split; [|split]].
  - cbn [app length]. now rewrite length_map, arange_length.
  - reflexivity.
  - intros level Hl.
    replace (Z.to_nat (level + 1)) with (S (Z.to_nat level)) by lia.
    cbn [app nth_error]. rewrite nth_error_map, arange_nth by lia.
    cbn [option_map]. rewrite Z2Nat.id by lia. repeat split; lia.
  - intros value l. unfold layout_index, set_level, level_to_index,
      index_to_level, AUTO_INDEX.
    destruct (value =? 0)%Z eqn:E; cbn [auto_level octree_level].
    + apply Z.eqb_eq in E. subst. repeat split; intros; congruence.
    + apply Z.eqb_neq in E. repeat split; intros; try lia; congruence.
Qed.

End Octree.

(** * The further properties at concrete inputs *)

Section FurtherInstances.

Import Standin LabelsLayer PyString BuildIcons.

(** Two colours from "rgb" within (0.4, 0.6): the draws with factors 6, 12
    and 24 hold one such colour each, the draw with factor 48 holds two. *)
Lemma color_random_returns_with_fuel_witness :
  color_random unchanged unchanged 4 module_globals 2 "rgb" (-0.4)
               (Scalar 0.5)
  = Some (Ok (firstn 2
                (match draw unchanged unchanged module_globals 2 "rgb"
                            (-0.4) (Scalar 0.5) (6 * 2 ^ 3) with
                 | Ok valid => valid
                 | Raise _ => []
                 end))).
Proof.
  apply (color_random_returns_with_fuel
           unchanged unchanged module_globals 2 (Scalar 0.5) "rgb"
           (-0.4)%float 3 4).
  - lia.
  - intros j Hj.
    destruct j as [|[|[|j]]]; [| | |lia];
      (eexists; split; [vm_compute; reflexivity | vm_compute; lia]).
  - vm_compute. reflexivity.
  - vm_compute. lia.
  - lia.
Defined.

Lemma color_random_nan_tolerance_never_returns_witness :
  color_random unchanged unchanged 3 module_globals 1 "rgb" nan (Scalar 0.5)
  = None
  \/ exists e,
       color_random unchanged unchanged 3 module_globals 1 "rgb" nan
                    (Scalar 0.5)
       = Some (Raise e).
Proof.
  exact (color_random_nan_tolerance_never_returns
           unchanged unchanged unchanged_triples unchanged_triples
           module_globals 1 (Scalar 0.5) "rgb" 3 (le_n 1)).
Defined.

Lemma label_colormap_colors_are_rgba_witness :
  exists rgb : matrix,
    color_random to_grey unchanged 1 module_globals 2 "lab" 0 (Scalar 0.5)
    = Some (Ok rgb)
    /\ (forall i r, 1 <= i -> nth_error rgb i = Some r ->
                    nth_error (colors two_colors) i = Some (r ++ [1%float]))
    /\ Forall (fun row => length row = 4) (colors two_colors)
    /\ InUnitCube (colors two_colors)
    /\ interpolation two_colors = "zero"%string.
Proof.
  exact (label_colormap_colors_are_rgba
           to_grey unchanged to_grey_triples module_globals (Scalar 0.5)
           1 2 two_colors (le_S 1 1 (le_n 1)) eq_refl).
Defined.

Lemma low_discrepancy_starts_at_seed_witness :
  exists (pts : matrix) (p : vector),
    low_discrepancy 2 3 (Vector [0.25; 1.5]%float) = Ok pts
    /\ nth_error pts 0 = Some p
    /\ length p = 2
    /\ forall d, d < 2 ->
         nth_error p d
         = Some (Float64.mod1 (seed_at (Vector [0.25; 1.5]%float) d)).
Proof.
  exact (low_discrepancy_starts_at_seed
           2 3 (Vector [0.25; 1.5]%float) (or_intror (or_introl eq_refl))
           eq_refl (le_S 1 2 (le_S 1 1 (le_n 1)))).
Defined.

Lemma validate_rgb_twice_witness :
  let colors := [[0; 1; 1]; [1.1; 0; -0.03]; [1.2; 1; 0.5]]%float in
  validate_rgb (validate_rgb colors 0.15) 0.15 = validate_rgb colors 0.15.
Proof.
  exact (validate_rgb_twice
           0.15%float eq_refl eq_refl
           [[0; 1; 1]; [1.1; 0; -0.03]; [1.2; 1; 0.5]]%float).
Defined.

(** An image of shape (4, 5) and the indices (7, a slice, 1): the 7 is
    brought back to 3, the slice is kept, the third index is dropped. *)
Lemma slice_indices_clamps_upper_witness :
  exists out : list index,
    slice_indices 2 [4; 5]%Z [Int 7; Slice None None None; Int 1] = Ok out
    /\ length out = 2
    /\ nth_error out 0 = Some (Int 3)
    /\ nth_error out 1 = Some (Slice None None None).
Proof.
  destruct (slice_indices_clamps_upper
              2 [4; 5]%Z [Int 7; Slice None None None; Int 1]
              (le_n 2))
    as (out & Hout & Hlen & Hnth).
  exists out. split; [exact Hout|]. split; [exact Hlen|]. split.
  - exact (proj1 (Hnth 0 (Int 7) 4%Z (le_S 1 1 (le_n 1)) eq_refl eq_refl)).
  - exact (proj1 (Hnth 1 (Slice None None None) 5%Z (le_n 2) eq_refl
                       eq_refl)).
Defined.

Lemma icon_files_are_listed_svg_files_witness :
  map svg_name (icon_names ["menu.svg"; "README.md"; "plus.svg"]%string)
  = ["menu.svg"; "plus.svg"]%string.
Proof.
  apply (icon_files_are_listed_svg_files
           ["menu.svg"; "README.md"; "plus.svg"]%string).
  intros stem [H|[H|[H|[]]]].
  - apply (append_inv_tail ".svg" "menu" stem) in H. now subst stem.
  - pose proof (app_endswith ".svg" stem) as E. rewrite <- H in E.
    discriminate E.
  - apply (append_inv_tail ".svg" "plus" stem) in H. now subst stem.
Defined.

(** ".svg" inside a name is removed too: the file then looked for is not
    the one listed. *)
Example icon_file_of_doubled_ending :
  map svg_name (icon_names ["a.svg.svg"]%string) = ["a.svg"]%string.
Proof. reflexivity. Qed.

Example qtpy_imports_of_generated_header :
  qtpy_imports "from PyQt5 import QtCore # or PySide2"
  = "from qtpy import QtCore # or qtpy"%string.
Proof. reflexivity. Qed.

End FurtherInstances.
